(** * Clione: the listing / purchase protocol and the encryption envelope

    A shallow embedding of
    - the Move module [sui_drop::market] (listing creation, the two purchase
      entry points, activation toggles and commission update),
    - the payload framing and key serialisation of [lib/crypto-utils.ts],
    - the purchase dispatch of the redeem page ([handlePurchase]),
    followed by the properties of the specification that concern them. *)

From Stdlib Require Import ZArith NArith List Bool Lia Ascii String QArith.
From stdpp Require Import base gmap.
Import ListNotations.

Local Open Scope Z_scope.

(* ===================================================================== *)
(** ** A state-and-abort monad for Move entry functions *)
(* ===================================================================== *)

Module Tx.

(** A Move execution stops either on [abort code] (an [assert!] that does
    not hold) or on a checked-arithmetic error: [u64] operations whose
    result does not fit abort the transaction instead of wrapping. *)
Inductive failure : Type :=
| Aborted (code : Z)
| ArithmeticError.

(** The state carried by [Fail] is the state reached when execution
    stopped; the ledger discards it, but it lets one say that nothing was
    done before the failure. *)
Inductive outcome (S A : Type) : Type :=
| Ok (a : A) (s : S)
| Fail (f : failure) (s : S).
Arguments Ok {S A} a s.
Arguments Fail {S A} f s.

Definition M (S A : Type) : Type := S -> outcome S A.

Definition ret {S A} (a : A) : M S A := fun s => Ok a s.

Definition bind {S A B} (m : M S A) (k : A -> M S B) : M S B :=
  fun s => match m s with
           | Ok a s' => k a s'
           | Fail f s' => Fail f s'
           end.

Definition fail {S A} (f : failure) : M S A := fun s => Fail f s.

Definition get {S} : M S S := fun s => Ok s s.
Definition modify {S} (g : S -> S) : M S unit := fun s => Ok tt (g s).

(** [assert!(cond, code)] *)
Definition assert {S} (cond : bool) (code : Z) : M S unit :=
  if cond then ret tt else fail (Aborted code).

End Tx.

Export Tx.

Notation "x <-- m ;; k" := (Tx.bind m (fun x => k))
  (at level 100, m at next level, right associativity).
Notation "m ;;; k" := (Tx.bind m (fun _ => k))
  (at level 100, right associativity).

(* ===================================================================== *)
(** ** Checked [u64] arithmetic *)
(* ===================================================================== *)

Module U64.

Definition MAX : Z := 18446744073709551615.

Definition in_range (x : Z) : Prop := 0 <= x <= MAX.
Definition in_rangeb (x : Z) : bool := (0 <=? x) && (x <=? MAX).

Definition mul {S} (a b : Z) : M S Z :=
  if a * b <=? MAX then ret (a * b) else fail ArithmeticError.

Definition sub {S} (a b : Z) : M S Z :=
  if b <=? a then ret (a - b) else fail ArithmeticError.

Definition div {S} (a b : Z) : M S Z :=
  if b =? 0 then fail ArithmeticError else ret (a / b).

End U64.

(* ===================================================================== *)
(** ** [module sui_drop::market] *)
(* ===================================================================== *)

Module Market.

Abbreviation address := Z.
Abbreviation ID := Z.
Abbreviation bytes := (list Z).          (* vector<u8> *)

(** Error codes *)
Definition E_INSUFFICIENT_PAYMENT : Z := 0.
Definition E_LISTING_NOT_ACTIVE : Z := 1.
Definition E_INVALID_AFFILIATE_PERCENTAGE : Z := 2.
Definition E_CANNOT_SELF_REFER : Z := 3.

(** Maximum affiliate percentage (10% = 1000 basis points) *)
Definition MAX_AFFILIATE_PERCENTAGE : Z := 1000.
(** Basis points denominator (100% = 10000) *)
Definition BASIS_POINTS : Z := 10000.

Record PurchaseEvent : Type := {
  pe_listing_id : ID;
  pe_buyer : address;
  pe_seller : address;
  pe_price : Z;
}.

Record AffiliatePurchaseEvent : Type := {
  ape_listing_id : ID;
  ape_buyer : address;
  ape_seller : address;
  ape_referrer : address;
  ape_price : Z;
  ape_affiliate_fee : Z;
  ape_seller_amount : Z;
}.

Inductive Event : Type :=
| EvPurchase (e : PurchaseEvent)
| EvAffiliatePurchase (e : AffiliatePurchaseEvent).

Record Listing : Type := {
  id : ID;
  seller : address;
  price : Z;
  blob_id : bytes;
  name : bytes;
  description : bytes;
  is_active : bool;
  affiliate_percentage : Z;
}.

(** [Coin<SUI>]: only the balance matters here. *)
Record Coin : Type := { value : Z }.

(** What a transaction has done so far: coins handed over with
    [transfer::public_transfer], events emitted, objects shared, and the
    counter from which [object::new] draws identities. *)
Record TxState : Type := {
  transfers : list (address * Coin);
  events : list Event;
  shared : list Listing;
  fresh : ID;
}.

Definition tx_start (next : ID) : TxState :=
  {| transfers := []; events := []; shared := []; fresh := next |}.

Definition public_transfer (c : Coin) (recipient : address) : M TxState unit :=
  modify (fun s => {| transfers := transfers s ++ [(recipient, c)];
                      events := events s; shared := shared s;
                      fresh := fresh s |}).

Definition emit (e : Event) : M TxState unit :=
  modify (fun s => {| transfers := transfers s;
                      events := events s ++ [e]; shared := shared s;
                      fresh := fresh s |}).

Definition share_object (l : Listing) : M TxState unit :=
  modify (fun s => {| transfers := transfers s;
                      events := events s; shared := shared s ++ [l];
                      fresh := fresh s |}).

Definition object_new : M TxState ID :=
  s <-- get ;;
  modify (fun s => {| transfers := transfers s;
                      events := events s; shared := shared s;
                      fresh := fresh s + 1 |}) ;;;
  ret (fresh s).

(** [coin::split(&mut self, amount, ctx)]: the pair is (what is left in
    [self], the coin split off); [balance::split] aborts with
    [ENotEnough = 2] when the balance is too small. *)
Definition coin_split (self : Coin) (amount : Z) : M TxState (Coin * Coin) :=
  assert (amount <=? value self) 2 ;;;
  ret ({| value := value self - amount |}, {| value := amount |}).

Definition create_listing_with_affiliate
    (price : Z) (blob_id name description : bytes)
    (affiliate_percentage : Z) (sender : address) : M TxState unit :=
  assert (affiliate_percentage <=? MAX_AFFILIATE_PERCENTAGE)
         E_INVALID_AFFILIATE_PERCENTAGE ;;;
  let seller := sender in
  uid <-- object_new ;;
  let listing := {| id := uid; seller := seller; price := price;
                    blob_id := blob_id; name := name;
                    description := description; is_active := true;
                    affiliate_percentage := affiliate_percentage |} in
  share_object listing.

Definition create_listing
    (price : Z) (blob_id name description : bytes) (sender : address)
    : M TxState unit :=
  create_listing_with_affiliate price blob_id name description 0 sender.

Definition purchase (listing : Listing) (payment : Coin) (sender : address)
    : M TxState unit :=
  assert (is_active listing) E_LISTING_NOT_ACTIVE ;;;
  let payment_value := value payment in
  assert (price listing <=? payment_value) E_INSUFFICIENT_PAYMENT ;;;
  let buyer := sender in
  public_transfer payment (seller listing) ;;;
  emit (EvPurchase {| pe_listing_id := id listing; pe_buyer := buyer;
                      pe_seller := seller listing;
                      pe_price := price listing |}).

Definition purchase_with_referral
    (listing : Listing) (payment : Coin) (referrer : address)
    (sender : address) : M TxState unit :=
  assert (is_active listing) E_LISTING_NOT_ACTIVE ;;;
  let payment_value := value payment in
  assert (price listing <=? payment_value) E_INSUFFICIENT_PAYMENT ;;;
  let buyer := sender in
  assert (negb (referrer =? buyer)) E_CANNOT_SELF_REFER ;;;
  assert (negb (referrer =? seller listing)) E_CANNOT_SELF_REFER ;;;
  affiliate_fee <--
    (if 0 <? affiliate_percentage listing then
       p <-- U64.mul (price listing) (affiliate_percentage listing) ;;
       U64.div p BASIS_POINTS
     else ret 0) ;;
  seller_amount <-- U64.sub (price listing) affiliate_fee ;;
  payment <--
    (if 0 <? affiliate_fee then
       sp <-- coin_split payment affiliate_fee ;;
       public_transfer (snd sp) referrer ;;;
       ret (fst sp)
     else ret payment) ;;
  public_transfer payment (seller listing) ;;;
  emit (EvAffiliatePurchase
          {| ape_listing_id := id listing; ape_buyer := buyer;
             ape_seller := seller listing; ape_referrer := referrer;
             ape_price := price listing;
             ape_affiliate_fee := affiliate_fee;
             ape_seller_amount := seller_amount |}).

(** The three seller-only entry points take [&mut Listing]: the borrowed
    listing is the state. *)
Definition deactivate_listing (sender : address) : M Listing unit :=
  listing <-- get ;;
  assert (sender =? seller listing) 1 ;;;
  modify (fun l => {| id := id l; seller := seller l; price := price l;
                      blob_id := blob_id l; name := name l;
                      description := description l; is_active := false;
                      affiliate_percentage := affiliate_percentage l |}).

Definition reactivate_listing (sender : address) : M Listing unit :=
  listing <-- get ;;
  assert (sender =? seller listing) 1 ;;;
  modify (fun l => {| id := id l; seller := seller l; price := price l;
                      blob_id := blob_id l; name := name l;
                      description := description l; is_active := true;
                      affiliate_percentage := affiliate_percentage l |}).

Definition update_affiliate_percentage (new_percentage : Z) (sender : address)
    : M Listing unit :=
  listing <-- get ;;
  assert (sender =? seller listing) 1 ;;;
  assert (new_percentage <=? MAX_AFFILIATE_PERCENTAGE)
         E_INVALID_AFFILIATE_PERCENTAGE ;;;
  modify (fun l => {| id := id l; seller := seller l; price := price l;
                      blob_id := blob_id l; name := name l;
                      description := description l;
                      is_active := is_active l;
                      affiliate_percentage := new_percentage |}).

(** View functions *)
Definition get_price (listing : Listing) : Z := price listing.
Definition get_seller (listing : Listing) : address := seller listing.
Definition get_affiliate_percentage (listing : Listing) : Z :=
  affiliate_percentage listing.

Definition calculate_affiliate_fee (listing : Listing) : M unit Z :=
  p <-- U64.mul (price listing) (affiliate_percentage listing) ;;
  U64.div p BASIS_POINTS.

End Market.

(* ===================================================================== *)
(** ** The ledger: shared listings and committed effects *)
(* ===================================================================== *)

Module Ledger.
Import Market.

(** Shared objects by identity, the next identity [object::new] will hand
    out, and what committed transactions have transferred and emitted. *)
Record State : Type := {
  objects : gmap Z Listing;
  next_id : ID;
  paid : list (address * Coin);
  log : list Event;
}.

Definition genesis : State :=
  {| objects := ∅; next_id := 0; paid := []; log := [] |}.

(** The entry points of the module, as a caller submits them. *)
Inductive Call : Type :=
| CreateListing (price : Z) (blob_id name description : bytes)
| CreateListingWithAffiliate (price : Z) (blob_id name description : bytes)
                             (affiliate_percentage : Z)
| Purchase (listing : ID) (payment : Coin)
| PurchaseWithReferral (listing : ID) (payment : Coin) (referrer : address)
| DeactivateListing (listing : ID)
| ReactivateListing (listing : ID)
| UpdateAffiliatePercentage (listing : ID) (new_percentage : Z).

(** Arguments of type [u64] are in range. *)
Definition wf_call (c : Call) : Prop :=
  match c with
  | CreateListing p _ _ _ => U64.in_range p
  | CreateListingWithAffiliate p _ _ _ bp => U64.in_range p /\ U64.in_range bp
  | Purchase _ pay => U64.in_range (value pay)
  | PurchaseWithReferral _ pay _ => U64.in_range (value pay)
  | DeactivateListing _ | ReactivateListing _ => True
  | UpdateAffiliatePercentage _ bp => U64.in_range bp
  end.

Inductive receipt : Type :=
| Success
| Failure (f : failure)
| NoSuchObject.

Definition publish (m : gmap Z Listing) (l : Listing) : gmap Z Listing :=
  <[id l := l]> m.

(** A transaction that ran to completion is committed as a whole. *)
Definition commit (L : State) (s : TxState) : State :=
  {| objects := fold_left publish (shared s) (objects L);
     next_id := fresh s;
     paid := paid L ++ transfers s;
     log := log L ++ events s |}.

(** A failed transaction leaves the ledger as it was. *)
Definition run_tx (L : State) (m : M TxState unit) : State * receipt :=
  match m (tx_start (next_id L)) with
  | Ok _ s => (commit L s, Success)
  | Fail f _ => (L, Failure f)
  end.

Definition with_listing (L : State) (lid : ID)
    (k : Listing -> State * receipt) : State * receipt :=
  match objects L !! lid with
  | Some l => k l
  | None => (L, NoSuchObject)
  end.

Definition run_mut (L : State) (lid : ID) (m : M Listing unit)
    : State * receipt :=
  with_listing L lid (fun l =>
    match m l with
    | Ok _ l' => ({| objects := <[lid := l']> (objects L);
                     next_id := next_id L;
                     paid := paid L; log := log L |}, Success)
    | Fail f _ => (L, Failure f)
    end).

Definition execute (sender : address) (c : Call) (L : State)
    : State * receipt :=
  match c with
  | CreateListing p b n d =>
      run_tx L (create_listing p b n d sender)
  | CreateListingWithAffiliate p b n d bp =>
      run_tx L (create_listing_with_affiliate p b n d bp sender)
  | Purchase lid pay =>
      with_listing L lid (fun l => run_tx L (purchase l pay sender))
  | PurchaseWithReferral lid pay r =>
      with_listing L lid (fun l =>
        run_tx L (purchase_with_referral l pay r sender))
  | DeactivateListing lid => run_mut L lid (deactivate_listing sender)
  | ReactivateListing lid => run_mut L lid (reactivate_listing sender)
  | UpdateAffiliatePercentage lid bp =>
      run_mut L lid (update_affiliate_percentage bp sender)
  end.

(** Ledgers reached from [genesis] by well-formed calls that all satisfy
    [P]. *)
Inductive reachable_by (P : Call -> Prop) : State -> Prop :=
| reach_genesis : reachable_by P genesis
| reach_step L sender c :
    reachable_by P L -> wf_call c -> P c ->
    reachable_by P (fst (execute sender c L)).

Definition reachable : State -> Prop := reachable_by (fun _ => True).

(** Creations that name a positive price and a non-empty locator. *)
Definition priced_and_located (c : Call) : Prop :=
  match c with
  | CreateListing p b _ _ => 0 < p /\ b <> []
  | CreateListingWithAffiliate p b _ _ _ => 0 < p /\ b <> []
  | _ => True
  end.

(** Total amount handed to [a] by a list of transfers. *)
Definition received (a : address) (ts : list (address * Coin)) : Z :=
  fold_right (fun t acc => if fst t =? a then value (snd t) + acc else acc)
             0 ts.

End Ledger.

Import Market Ledger.

(** The [affiliate_fee] field of an emitted event, for the events that have
    one. *)
Definition event_affiliate_fee (e : Market.Event) : option Z :=
  match e with
  | Market.EvPurchase _ => None
  | Market.EvAffiliatePurchase a => Some (Market.ape_affiliate_fee a)
  end.

(** The listing that a creation by [sender] shares. *)
Definition new_listing (uid : ID) (sender : address) (p : Z)
    (b n d : list Z) (bp : Z) : Listing :=
  {| id := uid; seller := sender; price := p; blob_id := b; name := n;
     description := d; is_active := true; affiliate_percentage := bp |}.

(** Fields that no entry point writes. *)
Definition same_static (l l' : Listing) : Prop :=
  id l' = id l /\ seller l' = seller l /\ price l' = price l /\
  blob_id l' = blob_id l /\ name l' = name l /\
  description l' = description l.

(** The failure reported by [purchase_with_referral] when the referrer is
    the buyer or the seller: the first check that does not hold. *)
Definition self_referral_failure (l : Listing) (payment : Coin) : failure :=
  if negb (is_active l) then Aborted E_LISTING_NOT_ACTIVE
  else if value payment <? price l then Aborted E_INSUFFICIENT_PAYMENT
  else Aborted E_CANNOT_SELF_REFER.

(** A listing and calls used to exercise the statements below. *)
Definition sample_listing : Listing :=
  {| id := 0; seller := 1; price := 999; blob_id := [98; 108; 111; 98];
     name := [110]; description := [100]; is_active := true;
     affiliate_percentage := 333 |}.

Definition paused_listing : Listing :=
  {| id := 0; seller := 1; price := 999; blob_id := [98; 108; 111; 98];
     name := [110]; description := [100]; is_active := false;
     affiliate_percentage := 333 |}.

Definition costly_listing : Listing :=
  {| id := 0; seller := 1; price := 20000000000000000; blob_id := [98];
     name := [110]; description := [100]; is_active := true;
     affiliate_percentage := 1000 |}.

(* ===================================================================== *)
(** ** [lib/crypto-utils.ts]: payload framing and key serialisation *)
(* ===================================================================== *)

(** The platform's [btoa] and [atob] (forgiving base64, RFC 4648 section 4
    alphabet).  A binary string - one whose code units are all below 256,
    the only strings [btoa] accepts - is a [string] here. *)
Module Base64.
Local Open Scope N_scope.

Definition alphabet : string :=
  "ABCDEFGHIJKLMNOPQRSTUVWXYZabcdefghijklmnopqrstuvwxyz0123456789+/".

Definition pad : ascii := "="%char.

Definition encode_sextet (n : N) : ascii :=
  match String.get (N.to_nat n) alphabet with
  | Some c => c
  | None => pad
  end.

Definition decode_char (c : ascii) : option N :=
  let n := N_of_ascii c in
  if (65 <=? n) && (n <=? 90) then Some (n - 65)
  else if (97 <=? n) && (n <=? 122) then Some (n - 71)
  else if (48 <=? n) && (n <=? 57) then Some (n + 4)
  else if n =? 43 then Some 62
  else if n =? 47 then Some 63
  else None.

(** Three bytes give four sextets; one or two trailing bytes give two or
    three sextets and padding. *)
Fixpoint encode_bytes (bs : list N) : list ascii :=
  match bs with
  | [] => []
  | [a] =>
      [encode_sextet (a / 4); encode_sextet ((a mod 4) * 16); pad; pad]
  | [a; b] =>
      [encode_sextet (a / 4); encode_sextet ((a mod 4) * 16 + b / 16);
       encode_sextet ((b mod 16) * 4); pad]
  | a :: b :: c :: rest =>
      encode_sextet (a / 4)
        :: encode_sextet ((a mod 4) * 16 + b / 16)
        :: encode_sextet ((b mod 16) * 4 + c / 64)
        :: encode_sextet (c mod 64)
        :: encode_bytes rest
  end.

(** The same encoding in two parts: the sextets, then the padding. *)
Fixpoint sextets (bs : list N) : list N :=
  match bs with
  | [] => []
  | [a] => [a / 4; (a mod 4) * 16]
  | [a; b] => [a / 4; (a mod 4) * 16 + b / 16; (b mod 16) * 4]
  | a :: b :: c :: rest =>
      a / 4 :: (a mod 4) * 16 + b / 16 :: (b mod 16) * 4 + c / 64
        :: c mod 64 :: sextets rest
  end.

Fixpoint padding (bs : list N) : list ascii :=
  match bs with
  | [] => []
  | [_] => [pad; pad]
  | [_; _] => [pad]
  | _ :: _ :: _ :: rest => padding rest
  end.

Definition btoa (s : string) : string :=
  string_of_list_ascii
    (encode_bytes (map N_of_ascii (list_ascii_of_string s))).

Definition is_ascii_whitespace (c : ascii) : bool :=
  let n := N_of_ascii c in
  (n =? 9) || (n =? 10) || (n =? 12) || (n =? 13) || (n =? 32).

(** If the length is a multiple of four, one or two trailing [=] are
    removed. *)
Definition strip_padding (d : list ascii) : list ascii :=
  if N.of_nat (length d) mod 4 =? 0 then
    match rev d with
    | c1 :: c2 :: r =>
        if Ascii.eqb c1 pad then
          if Ascii.eqb c2 pad then rev r else rev (c2 :: r)
        else d
    | _ => d
    end
  else d.

Fixpoint decode_chars (d : list ascii) : option (list N) :=
  match d with
  | [] => Some []
  | c :: d' =>
      match decode_char c, decode_chars d' with
      | Some n, Some ns => Some (n :: ns)
      | _, _ => None
      end
  end.

(** Four sextets give three bytes; a group of three gives two bytes and
    a group of two gives one, the spare low bits being dropped. *)
Fixpoint decode_sextets (ss : list N) : list N :=
  match ss with
  | a :: b :: c :: d :: rest =>
      (a * 4 + b / 16) :: ((b mod 16) * 16 + c / 4) :: ((c mod 4) * 64 + d)
        :: decode_sextets rest
  | [a; b; c] => [a * 4 + b / 16; (b mod 16) * 16 + c / 4]
  | [a; b] => [a * 4 + b / 16]
  | _ => []
  end.

Definition atob (s : string) : option string :=
  let d := List.filter (fun c => negb (is_ascii_whitespace c))
                  (list_ascii_of_string s) in
  let d := strip_padding d in
  if N.of_nat (length d) mod 4 =? 1 then None
  else match decode_chars d with
       | Some ss =>
           Some (string_of_list_ascii (map ascii_of_N (decode_sextets ss)))
       | None => None
       end.

End Base64.

Module CryptoUtils.

Abbreviation Uint8Array := (list Byte.byte).

(** [new Uint8Array(n)] *)
Definition Uint8Array_new (n : nat) : Uint8Array := repeat Byte.x00 n.

(** [target.set(source, offset)]: a [RangeError] when the source does not
    fit. *)
Definition Uint8Array_set (target source : Uint8Array) (offset : nat)
    : option Uint8Array :=
  if (offset + length source <=? length target)%nat
  then Some (firstn offset target ++ source
               ++ skipn (offset + length source) target)
  else None.

(** [a.slice(start, end)] for indices that are not negative: both are
    clamped to the length. *)
Definition Uint8Array_slice (a : Uint8Array) (start : nat)
    (stop : option nat) : Uint8Array :=
  let len := length a in
  let k := Nat.min start len in
  let final := match stop with
               | Some e => Nat.min e len
               | None => len
               end in
  firstn (final - k) (skipn k a).

(** Format: [12 bytes IV][encrypted data] *)
Definition createEncryptedPayload (encryptedBlob iv : Uint8Array)
    : option Uint8Array :=
  let encryptedBuffer := encryptedBlob in
  let combined := Uint8Array_new (length iv + length encryptedBuffer) in
  match Uint8Array_set combined iv 0 with
  | Some combined => Uint8Array_set combined encryptedBuffer (length iv)
  | None => None
  end.

Record Parsed : Type := { iv : Uint8Array; encryptedData : Uint8Array }.

Definition parseEncryptedPayload (payload : Uint8Array) : Parsed :=
  let payloadBytes := payload in
  {| iv := Uint8Array_slice payloadBytes 0 (Some 12%nat);
     encryptedData := Uint8Array_slice payloadBytes 12 None |}.

(** A [CryptoKey]: its raw material, which the platform hands out only
    for extractable keys, and what it may be used for. *)
Inductive KeyUsage : Type := Encrypt | Decrypt.

Record CryptoKey : Type := {
  raw : Uint8Array;
  extractable : bool;
  usages : list KeyUsage;
}.

(** [crypto.subtle.generateKey] for AES-GCM with [length: 256]; the
    argument stands for the 32 random bytes the platform draws. *)
Definition generateEncryptionKey (random : Uint8Array) : option CryptoKey :=
  if (length random =? 32)%nat
  then Some {| raw := random; extractable := true;
               usages := [Encrypt; Decrypt] |}
  else None.

(** [crypto.subtle.exportKey("raw", key)]: refused for a key that is not
    extractable. *)
Definition subtle_exportKey (key : CryptoKey) : option Uint8Array :=
  if extractable key then Some (raw key) else None.

(** [crypto.subtle.importKey("raw", bytes, "AES-GCM", extractable, usages)]:
    refused unless the data is 128, 192 or 256 bits long. *)
Definition subtle_importKey (keyBytes : Uint8Array) (ext : bool)
    (us : list KeyUsage) : option CryptoKey :=
  if ((length keyBytes =? 16) || (length keyBytes =? 24)
      || (length keyBytes =? 32))%nat
  then Some {| raw := keyBytes; extractable := ext; usages := us |}
  else None.

Definition exportKeyToBase64 (key : CryptoKey) : option string :=
  match subtle_exportKey key with
  | Some rawKey =>
      let keyBytes := rawKey in
      Some (Base64.btoa (string_of_list_byte keyBytes))
  | None => None
  end.

Definition importKeyFromBase64 (base64Key : string) : option CryptoKey :=
  match Base64.atob base64Key with
  | Some bin =>
      let keyBytes := list_byte_of_string bin in
      subtle_importKey keyBytes false [Decrypt]
  | None => None
  end.

(** Characters that a URL fragment may carry as they are (RFC 3986, section
    3.5: a fragment is made of path characters, the slash and the question
    mark): the unreserved characters (letters, digits, hyphen, dot,
    underscore, tilde), the sub-delimiters (exclamation mark, dollar,
    ampersand, apostrophe, parentheses, asterisk, plus, comma, semicolon,
    equals), the colon, the at sign, the slash and the question mark. *)
Definition url_safe_char (c : ascii) : bool :=
  let n := N_of_ascii c in
  ((65 <=? n) && (n <=? 90) || (97 <=? n) && (n <=? 122)
   || (48 <=? n) && (n <=? 57)
   || (n =? 45) || (n =? 46) || (n =? 95) || (n =? 126)
   || (n =? 33) || (n =? 36) || (38 <=? n) && (n <=? 44)
   || (n =? 59) || (n =? 61)
   || (n =? 58) || (n =? 64) || (n =? 47) || (n =? 63))%N.

Definition url_safe (s : string) : bool :=
  forallb url_safe_char (list_ascii_of_string s).

(** Characters of standard base64 output: the alphabet and the padding
    sign. *)
Definition base64_char (c : ascii) : bool :=
  match Base64.decode_char c with
  | Some _ => true
  | None => Ascii.eqb c Base64.pad
  end.

Definition all_ones_key : Uint8Array := repeat Byte.xff 32.

End CryptoUtils.

(* ===================================================================== *)
(** ** The redeem page: which entry point [handlePurchase] calls *)
(* ===================================================================== *)

Module Redeem.
Local Open Scope string_scope.

(** [ListingInfo]; [price] is the amount in MIST that the string read from
    the chain denotes, [affiliatePercentage] the number computed when the
    listing is fetched. *)
Record ListingInfo : Type := {
  id : string;
  seller : string;
  price : Z;
  blobId : string;
  name : string;
  description : string;
  isActive : bool;
  affiliatePercentage : Q;
}.

Record WalletAccount : Type := { address : string }.

(** [affiliatePercentageField ? parseInt(affiliatePercentageField) / 100 : 0],
    the field being the decimal string of the on-chain [u64]. *)
Definition affiliatePercentage_of_field (field : option Z) : Q :=
  match field with
  | Some bp => inject_Z bp / inject_Z 100
  | None => 0
  end.

(** [const ref = searchParams.get("ref"); if (ref) setReferrer(ref)] *)
Definition parse_referrer (ref : option string) : option string :=
  match ref with
  | Some r => if r =? "" then None else Some r
  | None => None
  end.

Definition hasValidReferrer (referrer : option string)
    (currentAccount : WalletAccount) (listing : ListingInfo) : bool :=
  match referrer with
  | Some r =>
      negb (r =? "")
      && negb (r =? address currentAccount)
      && negb (r =? seller listing)
      && negb (Qle_bool (affiliatePercentage listing) 0)
  | None => false
  end.

(** [Number(s)] for the decimal string of a non-negative integer [z]: the
    nearest double, ties going to the even mantissa.  A double holds 53
    significant bits, so the conversion is exact up to [2^53] and rounds to
    a multiple of a power of two above. *)
Definition js_Number (z : Z) : Z :=
  (let bits := Z.log2 z + 1 in
   if bits <=? 53 then z
   else
     let shift := bits - 53 in
     let q := Z.shiftr z shift in
     let r := z - Z.shiftl q shift in
     let half := Z.shiftl 1 (shift - 1) in
     let q' := if r <? half then q
               else if half <? r then q + 1
               else if Z.even q then q else q + 1 in
     Z.shiftl q' shift)%Z.

(** The Move call put in the transaction block, with the amount split off
    the gas coin as payment. *)
Inductive MoveCall : Type :=
| purchase (listing : string) (paymentCoin : Z)
| purchase_with_referral (listing : string) (paymentCoin : Z)
                         (referrer : string).

(** [BuildRefused]: the transaction builder turned the block down; it does
    so for a [splitCoins] amount that is not a [u64] value. *)
Inductive Submission : Type :=
| Nothing
| Error (message : string)
| BuildRefused
| Submitted (call : MoveCall).

(** [listingObjectFound] tells whether [getObject] returned data. *)
Definition handlePurchase (currentAccount : option WalletAccount)
    (listing : option ListingInfo) (referrer : option string)
    (listingObjectFound : bool) : Submission :=
  match currentAccount, listing with
  | Some currentAccount, Some listing =>
      if negb listingObjectFound then Error "Listing not found on chain"
      else
        let priceAmount := js_Number (price listing) in
        if negb (U64.in_rangeb priceAmount) then BuildRefused
        else if hasValidReferrer referrer currentAccount listing then
          match referrer with
          | Some r =>
              Submitted (purchase_with_referral (id listing) priceAmount r)
          | None => Nothing
          end
        else Submitted (purchase (id listing) priceAmount)
  | _, _ => Nothing
  end.

End Redeem.

Import CryptoUtils.

(** A twelve-byte IV. *)
Definition sample_iv : list Byte.byte :=
  [Byte.x00; Byte.x01; Byte.x02; Byte.x03; Byte.x04; Byte.x05;
   Byte.x06; Byte.x07; Byte.x08; Byte.x09; Byte.x0a; Byte.x0b].

(** What the specification calls a valid referral: a referrer is present,
    is neither the buyer nor the seller, and the on-chain commission is not
    zero. *)
Definition valid_referral (referrer : option string)
    (currentAccount : Redeem.WalletAccount) (listing : Redeem.ListingInfo)
    (bp : Z) : Prop :=
  exists r, referrer = Some r /\ r <> ""%string /\
            r <> Redeem.address currentAccount /\
            r <> Redeem.seller listing /\ bp <> 0.

(** A buyer and a fetched listing with a commission of 333 basis points. *)
Definition sample_buyer : Redeem.WalletAccount :=
  {| Redeem.address := "0xb" |}.

Definition sample_info : Redeem.ListingInfo :=
  {| Redeem.id := "0x1"; Redeem.seller := "0xa"; Redeem.price := 999;
     Redeem.blobId := "blob"; Redeem.name := "n"; Redeem.description := "d";
     Redeem.isActive := true;
     Redeem.affiliatePercentage :=
       Redeem.affiliatePercentage_of_field (Some 333) |}.

(** The same listing priced at the largest [u64], with no commission. *)
Definition top_price_info : Redeem.ListingInfo :=
  {| Redeem.id := "0x1"; Redeem.seller := "0xa";
     Redeem.price := 18446744073709551615;
     Redeem.blobId := "blob"; Redeem.name := "n"; Redeem.description := "d";
     Redeem.isActive := true;
     Redeem.affiliatePercentage :=
       Redeem.affiliatePercentage_of_field (Some 0) |}.

(** A sequence of calls, each with its sender, applied in order. *)
Definition run_calls (cs : list (Z * Call)) (L : State) : State :=
  fold_left (fun L sc => fst (execute (fst sc) (snd sc) L)) cs L.

(** Sum of the coins in a list of transfers. *)
Definition total (ts : list (Z * Coin)) : Z :=
  fold_right (fun t acc => value (snd t) + acc) 0 ts.

(** A listing priced at 9 MIST with the maximal commission. *)
Definition tiny_listing : Listing :=
  {| id := 0; seller := 1; price := 9; blob_id := [98]; name := [110];
     description := [100]; is_active := true;
     affiliate_percentage := 1000 |}.

(** A ledger with one listing: 999 MIST at 333 basis points, sold by 1. *)
Definition shop : State :=
  fst (execute 1 (CreateListingWithAffiliate 999 [98] [110] [100] 333)
         genesis).

Definition shop_listing : Listing := new_listing 0 1 999 [98] [110] [100] 333.

(** [encryptFile] and [decryptFile] of [lib/crypto-utils.ts].  AES-GCM
    itself is the platform's: the functions below take it as [cipher] and
    [decipher] (raw key, IV, data), [decipher] answering [None] when the
    authentication tag does not verify.  [entropy] stands for the bytes
    [crypto.getRandomValues] draws. *)
Module FileCrypto.
Import CryptoUtils.

Record File : Type := {
  content : list Byte.byte;
  fileName : string;
  fileType : string;
}.

Record EncryptedFile : Type := {
  encryptedBlob : list Byte.byte;
  fileIv : list Byte.byte;
  originalName : string;
  originalType : string;
}.

(** [crypto.getRandomValues(new Uint8Array(n))] *)
Definition getRandomValues (n : nat) (entropy : nat -> Byte.byte)
    : list Byte.byte :=
  map entropy (seq 0 n).

Definition has_usage (u : KeyUsage) (key : CryptoKey) : bool :=
  existsb (fun v => match u, v with
                    | Encrypt, Encrypt | Decrypt, Decrypt => true
                    | _, _ => false
                    end) (usages key).

(** [crypto.subtle.encrypt] refuses a key without the [encrypt] usage. *)
Definition encryptFile
    (cipher : list Byte.byte -> list Byte.byte -> list Byte.byte
              -> list Byte.byte)
    (entropy : nat -> Byte.byte) (file : File) (key : CryptoKey)
    : option EncryptedFile :=
  let fileBuffer := content file in
  let iv := getRandomValues 12 entropy in
  if has_usage Encrypt key then
    let encryptedBuffer := cipher (raw key) iv fileBuffer in
    Some {| encryptedBlob := encryptedBuffer; fileIv := iv;
            originalName := fileName file; originalType := fileType file |}
  else None.

(** [crypto.subtle.decrypt] refuses a key without the [decrypt] usage and
    fails when the data does not authenticate. *)
Definition decryptFile
    (decipher : list Byte.byte -> list Byte.byte -> list Byte.byte
                -> option (list Byte.byte))
    (encryptedData : list Byte.byte) (key : CryptoKey) (iv : list Byte.byte)
    (originalName originalType : string) : option File :=
  if has_usage Decrypt key then
    match decipher (raw key) iv encryptedData with
    | Some decryptedBuffer =>
        Some {| content := decryptedBuffer; fileName := originalName;
                fileType := originalType |}
    | None => None
    end
  else None.

(** A stand-in cipher for exercising the statements: it keeps the data. *)
Definition plain_cipher (k i d : list Byte.byte) : list Byte.byte := d.
Definition plain_decipher (k i d : list Byte.byte)
    : option (list Byte.byte) := Some d.

Definition sample_file : File :=
  {| content := [Byte.x68; Byte.x69]; fileName := "a.txt";
     fileType := "text/plain" |}.

Definition sample_key : CryptoKey :=
  {| raw := all_ones_key; extractable := true;
     usages := [Encrypt; Decrypt] |}.

End FileCrypto.

(** [lib/sui-utils.ts] and [_LEGACY_BACKUP/zk-utils.ts]: address display and
    the format checks. *)
Module Formats.
Local Open Scope string_scope.

(** [address.slice(0, 6)...address.slice(-4)] for strings longer than ten
    characters. *)
Definition formatAddress (address : string) : string :=
  if (String.length address <=? 10)%nat then address
  else substring 0 6 address ++ "..."
         ++ substring (String.length address - 4) 4 address.

Definition is_digit (c : ascii) : bool :=
  let n := N_of_ascii c in ((48 <=? n) && (n <=? 57))%N.

Definition is_lower_hex (c : ascii) : bool :=
  let n := N_of_ascii c in ((97 <=? n) && (n <=? 102))%N.

Definition is_upper_hex (c : ascii) : bool :=
  let n := N_of_ascii c in ((65 <=? n) && (n <=? 70))%N.

(** The class [[a-fA-F0-9]], which is also [[0-9a-f]] under the [i] flag. *)
Definition is_hex (c : ascii) : bool :=
  is_digit c || is_lower_hex c || is_upper_hex c.

(** [/^[0-9a-f]{64}$/i.test(salt)] *)
Definition isValidMasterSalt (salt : string) : bool :=
  (String.length salt =? 64)%nat && forallb is_hex (list_ascii_of_string salt).

(** [/^0x[a-fA-F0-9]{64}$/.test(address)] *)
Definition isValidSuiAddress (address : string) : bool :=
  match address with
  | String "0" (String "x" rest) =>
      (String.length rest =? 64)%nat
      && forallb is_hex (list_ascii_of_string rest)
  | _ => false
  end.

Definition isValidObjectId (objectId : string) : bool :=
  isValidSuiAddress objectId.

(** [bytesToHex] of [@noble/hashes/utils]: two lower-case digits a byte. *)
Definition hex_digit (n : N) : ascii :=
  if (n <? 10)%N then ascii_of_N (48 + n) else ascii_of_N (87 + n).

Definition bytesToHex (bytes : list Byte.byte) : string :=
  string_of_list_ascii
    (flat_map (fun b => [hex_digit (Byte.to_N b / 16);
                         hex_digit (Byte.to_N b mod 16)]) bytes).

(** [generateMasterSalt], from the 32 bytes that [crypto.getRandomValues]
    draws. *)
Definition generateMasterSalt (entropy : nat -> Byte.byte) : string :=
  let array := map entropy (seq 0 32) in
  bytesToHex array.

(** [computeZkLoginAddress]; [sha256] is the hash of [@noble/hashes]. *)
Definition computeZkLoginAddress (sha256 : string -> list Byte.byte)
    (jwtIssuer email masterSalt : string) : string :=
  let input := jwtIssuer ++ email ++ masterSalt in
  let hash := sha256 input in
  "0x" ++ bytesToHex hash.

Definition getZkLoginAddress sha256 (email salt : string) : string :=
  let googleIssuer := "https://accounts.google.com" in
  computeZkLoginAddress sha256 googleIssuer email salt.

(** A stand-in hash of the right size, for exercising the statements. *)
Definition zero_hash (input : string) : list Byte.byte :=
  repeat Byte.x00 32.

End Formats.

(** [uploadToWalrus] of [lib/walrus-utils.ts], as a function of what
    [fetch] came back with. *)
Module Walrus.
Local Open Scope string_scope.

(** What [response.json()] can give, and [undefined] for a property that is
    not there.  A number is the double that was parsed: a rational, or an
    infinity for a literal out of range. *)
Inductive JsNumber : Type :=
| Finite (x : Q)
| Infinity (negative : bool).

#[warnings="-register-all"] Inductive JsValue : Type :=
| JUndefined
| JNull
| JBool (b : bool)
| JNumber (n : JsNumber)
| JString (s : string)
| JArray (items : list JsValue)
| JObject (properties : list (string * JsValue)).

(** ToBoolean *)
Definition truthy (v : JsValue) : bool :=
  match v with
  | JUndefined | JNull => false
  | JBool b => b
  | JNumber (Finite x) => negb (Qnum x =? 0)%Z
  | JNumber (Infinity _) => true
  | JString s => negb (s =? "")
  | JArray _ | JObject _ => true
  end.

Fixpoint own_property (k : string) (properties : list (string * JsValue))
    : JsValue :=
  match properties with
  | [] => JUndefined
  | (k', v) :: rest => if k =? k' then v else own_property k rest
  end.

(** [v.k] for the property names that [uploadToWalrus] reads, none of which
    a boolean, a number, a string or an array has; [None] is the TypeError
    of reading a property of [undefined] or [null]. *)
Definition get (v : JsValue) (k : string) : option JsValue :=
  match v with
  | JUndefined | JNull => None
  | JObject properties => Some (own_property k properties)
  | JBool _ | JNumber _ | JString _ | JArray _ => Some JUndefined
  end.

(** A response: [json] is [None] when the body does not parse. *)
Record Response : Type := {
  ok : bool;
  status : Z;
  text : string;
  json : option JsValue;
}.

Inductive Fetched : Type :=
| NetworkError
| Responded (r : Response).

Inductive UploadError : Type :=
| FetchFailed
| UploadFailed (status : Z) (errorText : string)
| BodyNotJson
| TypeError
| UnexpectedFormat.

Inductive Uploaded : Type :=
| Returned (blobId : JsValue)
| Threw (e : UploadError).

Notation "x <~ m ;; k" :=
  (match m with Some x => k | None => None end)
  (at level 100, m at next level, right associativity).

(** The value of [blobId] after the two cases, every property read in
    source order, those made only for the log included. *)
Definition pick_blobId (result : JsValue) : option JsValue :=
  alreadyCertified <~ get result "alreadyCertified" ;;
  if truthy alreadyCertified then
    blobId <~ get alreadyCertified "blobId" ;;
    endEpoch <~ get alreadyCertified "endEpoch" ;;
    event <~ get alreadyCertified "event" ;;
    txDigest <~ get event "txDigest" ;;
    Some blobId
  else
    newlyCreated <~ get result "newlyCreated" ;;
    if truthy newlyCreated then
      blobObject <~ get newlyCreated "blobObject" ;;
      blobId <~ get blobObject "blobId" ;;
      size <~ get blobObject "size" ;;
      cost <~ get newlyCreated "cost" ;;
      storage <~ get blobObject "storage" ;;
      endEpoch <~ (if truthy storage then get storage "endEpoch"
                   else Some JUndefined) ;;
      Some blobId
    else Some JNull.

Definition uploadToWalrus (fetched : Fetched) : Uploaded :=
  match fetched with
  | NetworkError => Threw FetchFailed
  | Responded response =>
      if negb (ok response)
      then Threw (UploadFailed (status response) (text response))
      else
        match json response with
        | None => Threw BodyNotJson
        | Some result =>
            match pick_blobId result with
            | None => Threw TypeError
            | Some blobId =>
                if negb (truthy blobId) then Threw UnexpectedFormat
                else Returned blobId
            end
        end
  end.

(** Answers of the shape [WalrusStoreResponse] declares. *)
Definition already_certified (blobId txDigest eventSeq : string) : JsValue :=
  JObject [("alreadyCertified",
            JObject [("blobId", JString blobId);
                     ("event", JObject [("txDigest", JString txDigest);
                                        ("eventSeq", JString eventSeq)])])].

Definition newly_created (blobId storageId : string) (cost : Q) : JsValue :=
  JObject [("newlyCreated",
            JObject [("blobObject",
                      JObject [("blobId", JString blobId);
                               ("storage",
                                JObject [("id", JString storageId)])]);
                     ("cost", JNumber (Finite cost))])].

Definition answered (result : JsValue) : Fetched :=
  Responded {| ok := true; status := 200; text := ""; json := Some result |}.

End Walrus.

(** The commission part of [handleCreateListing] on the publish page:
    [affiliateNum] is the integer that [parseInt(affiliatePercentage) || 0]
    evaluates to, [priceInMist] and the byte vectors are what the earlier
    steps produced. *)
Module PublishPage.

(** [Refused]: the price is handed to [tx.pure] for a [u64] parameter, and
    the transaction builder turns down a value that is no [u64]; nothing is
    submitted then. *)
Inductive Outcome : Type :=
| Rejected (message : string)
| Refused
| MoveCall (c : Ledger.Call).

(** [priceInMist] is [suiToMist(priceNum)], an integer of any size. *)
Definition handleCreateListing (enableAffiliate : bool)
    (affiliateNum priceInMist : Z) (blobIdBytes nameBytes descBytes : list Z)
    : Outcome :=
  if enableAffiliate && ((affiliateNum <? 1) || (10 <? affiliateNum))
  then Rejected "Affiliate percentage must be between 1% and 10%"
  else
    let affiliateBasisPoints :=
      if enableAffiliate then affiliateNum * 100 else 0 in
    if negb (U64.in_rangeb priceInMist) then Refused
    else if enableAffiliate && (0 <? affiliateBasisPoints)
    then MoveCall (CreateListingWithAffiliate priceInMist blobIdBytes
                     nameBytes descBytes affiliateBasisPoints)
    else MoveCall (CreateListing priceInMist blobIdBytes nameBytes descBytes).

End PublishPage.

(** [encodeUnlockData] of [lib/crypto-utils.ts].  File names are arbitrary
    JavaScript strings, so strings are lists of UTF-16 code units here;
    [JSON.stringify] and [btoa] are the platform's. *)
Module UnlockData.
Import CryptoUtils.
Local Open Scope N_scope.

Definition units_of_string (s : string) : list N :=
  map N_of_ascii (list_ascii_of_string s).

Definition is_leading_surrogate (c : N) : bool :=
  (0xD800 <=? c) && (c <=? 0xDBFF).

Definition is_trailing_surrogate (c : N) : bool :=
  (0xDC00 <=? c) && (c <=? 0xDFFF).

(** [\uXXXX], lower-case digits *)
Definition UnicodeEscape (c : N) : list N :=
  [92; 117]
    ++ map (fun n => N_of_ascii (Formats.hex_digit n))
         [c / 4096 mod 16; c / 256 mod 16; c / 16 mod 16; c mod 16].

(** A code point that is one code unit and not a surrogate: the short
    escapes, [\u] escapes for the other control characters, the character
    itself otherwise. *)
Definition quote_unit (c : N) : list N :=
  if c =? 8 then [92; 98]
  else if c =? 9 then [92; 116]
  else if c =? 10 then [92; 110]
  else if c =? 12 then [92; 102]
  else if c =? 13 then [92; 114]
  else if c =? 34 then [92; 34]
  else if c =? 92 then [92; 92]
  else if c <? 32 then UnicodeEscape c
  else [c].

(** A surrogate pair is copied; a surrogate on its own is escaped. *)
Fixpoint quote_units (s : list N) : list N :=
  match s with
  | [] => []
  | c :: rest =>
      if is_leading_surrogate c then
        match rest with
        | d :: rest' =>
            if is_trailing_surrogate d then c :: d :: quote_units rest'
            else UnicodeEscape c ++ quote_units rest
        | [] => UnicodeEscape c
        end
      else if is_trailing_surrogate c then UnicodeEscape c ++ quote_units rest
      else quote_unit c ++ quote_units rest
  end.

Definition QuoteJSONString (s : list N) : list N :=
  [34] ++ quote_units s ++ [34].

(** [JSON.stringify({ k: k, n: n, t: t })] for three strings *)
Definition JSON_stringify (k n t : list N) : list N :=
  [123; 34; 107; 34; 58] ++ QuoteJSONString k
    ++ [44; 34; 110; 34; 58] ++ QuoteJSONString n
    ++ [44; 34; 116; 34; 58] ++ QuoteJSONString t
    ++ [125].

(** [btoa] throws on a code unit above 255. *)
Definition js_btoa (data : list N) : option string :=
  if forallb (fun u => u <? 256) data
  then Some (Base64.btoa (string_of_list_ascii (map ascii_of_N data)))
  else None.

Definition encodeUnlockData (key : CryptoKey) (fileName fileType : list N)
    : option string :=
  match exportKeyToBase64 key with
  | Some keyBase64 =>
      let data :=
        JSON_stringify (units_of_string keyBase64) fileName fileType in
      js_btoa data
  | None => None
  end.

End UnlockData.

(* ===================================================================== *)
(** ** Properties of the listing protocol *)
(* ===================================================================== *)

Section MarketProperties.

Lemma received_app a ts1 ts2 :
  received a (ts1 ++ ts2) = received a ts1 + received a ts2.
Proof.
  unfold received.
  induction ts1 as [|t ts1 IH]; simpl; [reflexivity|].
  rewrite IH. destruct (fst t =? a); lia.
Qed.

(** Floor division by [BASIS_POINTS] of a commission of at most 100%
    never exceeds the price. *)
Lemma fee_le_price p bp :
  0 <= p -> 0 <= bp <= BASIS_POINTS -> 0 <= p * bp / BASIS_POINTS <= p.
Proof.
  unfold BASIS_POINTS. intros Hp Hbp. split.
  - apply Z.div_pos; [apply Z.mul_nonneg_nonneg|]; lia.
  - apply Z.div_le_upper_bound; [lia|].
    assert (0 <= p * (10000 - bp)) by (apply Z.mul_nonneg_nonneg; lia). lia.
Qed.

(** Unfolding of the monad and of the ledger primitives. *)
Ltac run :=
  cbv beta iota zeta delta
    [purchase purchase_with_referral create_listing
     create_listing_with_affiliate deactivate_listing reactivate_listing
     update_affiliate_percentage coin_split public_transfer emit
     share_object object_new U64.mul U64.sub U64.div
     Tx.bind Tx.ret Tx.fail Tx.get Tx.modify Tx.assert].

Lemma zleb_true a b : a <= b -> (a <=? b) = true.
Proof. apply Z.leb_le. Qed.

Lemma zleb_false a b : b < a -> (a <=? b) = false.
Proof. apply Z.leb_gt. Qed.

Lemma zneqb_true a b : a <> b -> negb (a =? b) = true.
Proof. intros H. apply negb_true_iff, Z.eqb_neq, H. Qed.

(** What a successful [purchase_with_referral] does, for a fee that the
    [u64] product can hold. *)
Lemma purchase_with_referral_ok l payment referrer sender s :
  0 <= price l -> 0 <= affiliate_percentage l <= BASIS_POINTS ->
  price l * affiliate_percentage l <= U64.MAX ->
  is_active l = true -> price l <= value payment ->
  referrer <> sender -> referrer <> seller l ->
  let fee := price l * affiliate_percentage l / BASIS_POINTS in
  purchase_with_referral l payment referrer sender s =
    Ok tt {| transfers :=
               (transfers s ++
                  (if 0 <? fee then [(referrer, {| value := fee |})]
                   else []))
               ++ [(seller l,
                    if 0 <? fee then {| value := value payment - fee |}
                    else payment)];
             events := events s ++
               [EvAffiliatePurchase
                  {| ape_listing_id := id l; ape_buyer := sender;
                     ape_seller := seller l; ape_referrer := referrer;
                     ape_price := price l; ape_affiliate_fee := fee;
                     ape_seller_amount := price l - fee |}];
             shared := shared s; fresh := fresh s |}.
Proof.
  intros Hp Hbp Hmul Hact Hpay Hr1 Hr2 fee.
  pose proof (fee_le_price (price l) (affiliate_percentage l) Hp Hbp) as Hfee.
  fold fee in Hfee.
  run. rewrite Hact, (zleb_true _ _ Hpay), (zneqb_true _ _ Hr1),
    (zneqb_true _ _ Hr2).
  destruct (0 <? affiliate_percentage l) eqn:Hpos.
  - rewrite (zleb_true _ _ Hmul).
    change (BASIS_POINTS =? 0) with false. cbv beta iota. fold fee.
    rewrite (zleb_true fee (price l)) by lia. cbv beta iota.
    destruct (0 <? fee) eqn:Hf; cbv beta iota.
    + rewrite (zleb_true fee (value payment)) by lia. reflexivity.
    + simpl. now rewrite app_nil_r.
  - apply Z.ltb_ge in Hpos.
    assert (affiliate_percentage l = 0) as Hz by lia.
    assert (fee = 0) as Hfee0
        by (unfold fee; rewrite Hz, Z.mul_0_r; reflexivity).
    rewrite Hfee0. cbv beta iota.
    rewrite (zleb_true 0 (price l)) by lia.
    simpl. now rewrite app_nil_r.
Qed.

Lemma received_snoc a ts r c :
  received a (ts ++ [(r, c)]) =
  received a ts + (if r =? a then value c else 0).
Proof.
  rewrite received_app. unfold received; simpl.
  destruct (r =? a); lia.
Qed.

End MarketProperties.

(** C1. The split is not made for every price: [price * affiliate_bp] is
    computed as a [u64] product before the division, and for a price of
    2 * 10^16 (twenty million SUI, in MIST) at 10% it exceeds [2^64 - 1].
    With every hypothesis of the property in force - positive price,
    commission in range, active listing, payment covering the price, a
    referrer who is neither buyer nor seller - the call stops on the
    arithmetic error and nobody is paid, where the property has the referrer
    receive 2 * 10^15 and the seller the rest. *)
Lemma purchase_with_referral_large_price_fails :
  0 < price costly_listing /\
  0 <= affiliate_percentage costly_listing <= MAX_AFFILIATE_PERCENTAGE /\
  is_active costly_listing = true /\
  price costly_listing <= value {| value := 20000000000000000 |} /\
  3 <> 2 /\ 3 <> seller costly_listing /\
  purchase_with_referral costly_listing {| value := 20000000000000000 |} 3 2 (tx_start 1)
    = Fail ArithmeticError (tx_start 1).
Proof. repeat split; try discriminate; vm_compute; congruence. Qed.

(** Where the product [price * affiliate_bp] fits in [u64] the split is
    made as intended: for every listing with [price > 0] and
    [affiliate_bp] in [0, 1000], every [purchase_with_referral] that passes
    the activation, payment-amount and self-referral checks succeeds; the
    referrer receives exactly [floor (price * affiliate_bp / 10000)], the
    seller receives the rest of the submitted payment, and the emitted
    event carries that fee and a seller amount with
    [affiliate_fee + seller_amount = price]; the view
    [calculate_affiliate_fee] returns the same fee. *)
Theorem purchase_with_referral_split :
  forall (l : Listing) (payment : Coin) (referrer sender : address)
         (s : TxState),
    0 < price l ->
    0 <= affiliate_percentage l <= MAX_AFFILIATE_PERCENTAGE ->
    price l * affiliate_percentage l <= U64.MAX ->
    is_active l = true ->
    price l <= value payment ->
    referrer <> sender ->
    referrer <> seller l ->
    let affiliate_fee := price l * affiliate_percentage l / BASIS_POINTS in
    exists s' ev,
      purchase_with_referral l payment referrer sender s = Ok tt s' /\
      received referrer (transfers s') =
        received referrer (transfers s) + affiliate_fee /\
      received (seller l) (transfers s') =
        received (seller l) (transfers s) + (value payment - affiliate_fee) /\
      (forall a, a <> referrer -> a <> seller l ->
         received a (transfers s') = received a (transfers s)) /\
      events s' = events s ++ [EvAffiliatePurchase ev] /\
      ape_price ev = price l /\
      ape_affiliate_fee ev = affiliate_fee /\
      ape_affiliate_fee ev + ape_seller_amount ev = price l /\
      calculate_affiliate_fee l tt = Ok affiliate_fee tt.
Proof.
  intros l payment referrer sender s Hp Hbp Hmul Hact Hpay Hr1 Hr2 fee.
  assert (0 <= affiliate_percentage l <= BASIS_POINTS) as Hbp'
      by (unfold MAX_AFFILIATE_PERCENTAGE, BASIS_POINTS in *; lia).
  pose proof (purchase_with_referral_ok l payment referrer sender s
                ltac:(lia) Hbp' Hmul Hact Hpay Hr1 Hr2) as Hrun.
  cbv zeta in Hrun. fold fee in Hrun.
  eexists. eexists. split; [exact Hrun|]. cbn [transfers events].
  assert ((referrer =? seller l) = false) as E1 by (apply Z.eqb_neq; exact Hr2).
  assert ((seller l =? referrer) = false) as E2
      by (apply Z.eqb_neq; congruence).
  repeat split.
  - rewrite received_snoc, E2. destruct (0 <? fee) eqn:Hf.
    + rewrite received_snoc, Z.eqb_refl. cbn [value]. lia.
    + apply Z.ltb_ge in Hf.
      pose proof (fee_le_price (price l) (affiliate_percentage l)
                    ltac:(lia) Hbp') as Hfee. fold fee in Hfee.
      rewrite app_nil_r. lia.
  - rewrite received_snoc, Z.eqb_refl. destruct (0 <? fee) eqn:Hf.
    + rewrite received_snoc, E1. cbn [value]. lia.
    + apply Z.ltb_ge in Hf.
      pose proof (fee_le_price (price l) (affiliate_percentage l)
                    ltac:(lia) Hbp') as Hfee. fold fee in Hfee.
      rewrite app_nil_r. lia.
  - intros a Ha1 Ha2. rewrite received_snoc.
    replace (seller l =? a) with false
      by (symmetry; apply Z.eqb_neq; congruence).
    destruct (0 <? fee).
    + rewrite received_snoc.
      replace (referrer =? a) with false
        by (symmetry; apply Z.eqb_neq; congruence).
      lia.
    + rewrite app_nil_r. lia.
  - cbn [ape_affiliate_fee ape_seller_amount]. lia.
  - unfold calculate_affiliate_fee, U64.mul, U64.div, Tx.bind, Tx.ret.
    rewrite (zleb_true _ _ Hmul). reflexivity.
Qed.

(** Scenario B of the specification: price 999 at 333 bp gives a fee of 33
    and 966 for the seller. *)
Lemma purchase_with_referral_split_witness :
  exists s' ev,
    purchase_with_referral sample_listing {| value := 999 |} 3 2 (tx_start 1)
      = Ok tt s' /\
    received 3 (transfers s') = 33 /\
    received 1 (transfers s') = 966 /\
    events s' = [EvAffiliatePurchase ev] /\
    ape_affiliate_fee ev + ape_seller_amount ev = 999.
Proof.
  destruct (purchase_with_referral_split sample_listing {| value := 999 |}
              3 2 (tx_start 1))
    as (s' & ev & H1 & H2 & H3 & _ & H5 & _ & _ & H8 & _);
    try (vm_compute; congruence); try reflexivity.
  - split; vm_compute; congruence.
  - exists s', ev. repeat split; assumption.
Defined.

(** C3. On a listing whose [is_active] is false, [purchase] and
    [purchase_with_referral] abort with [E_LISTING_NOT_ACTIVE] whatever the
    payment, the referrer and the caller; the state at the abort is the
    state at entry, so no coin has been handed to anyone, and the ledger is
    left as it was. *)
Theorem inactive_listing_rejects_purchases :
  forall (l : Listing) (payment : Coin) (referrer sender : address),
    is_active l = false ->
    (forall s,
       purchase l payment sender s
         = Fail (Aborted E_LISTING_NOT_ACTIVE) s /\
       purchase_with_referral l payment referrer sender s
         = Fail (Aborted E_LISTING_NOT_ACTIVE) s) /\
    (forall L lid,
       objects L !! lid = Some l ->
       execute sender (Purchase lid payment) L
         = (L, Failure (Aborted E_LISTING_NOT_ACTIVE)) /\
       execute sender (PurchaseWithReferral lid payment referrer) L
         = (L, Failure (Aborted E_LISTING_NOT_ACTIVE))).
Proof.
  intros l payment referrer sender Hoff.
  assert (forall s,
       purchase l payment sender s
         = Fail (Aborted E_LISTING_NOT_ACTIVE) s /\
       purchase_with_referral l payment referrer sender s
         = Fail (Aborted E_LISTING_NOT_ACTIVE) s) as Hfn.
  { intros s. split.
    - unfold purchase, Tx.bind, Tx.assert. rewrite Hoff. reflexivity.
    - unfold purchase_with_referral, Tx.bind, Tx.assert. rewrite Hoff.
      reflexivity. }
  split; [exact Hfn|].
  intros L lid Hl. unfold execute, with_listing, run_tx. rewrite Hl.
  destruct (Hfn (tx_start (next_id L))) as [-> ->]. split; reflexivity.
Qed.

Lemma inactive_listing_rejects_purchases_witness :
  purchase paused_listing {| value := 999 |} 2 (tx_start 1)
    = Fail (Aborted E_LISTING_NOT_ACTIVE) (tx_start 1) /\
  purchase_with_referral paused_listing {| value := 999 |} 3 2 (tx_start 1)
    = Fail (Aborted E_LISTING_NOT_ACTIVE) (tx_start 1).
Proof.
  apply (inactive_listing_rejects_purchases paused_listing {| value := 999 |}
           3 2 eq_refl).
Defined.

(** C4, as stated, does not hold for every listing and payment: the
    activation and payment checks run before the self-referral check, so a
    buyer who names themselves as referrer and underpays is refused with
    [E_INSUFFICIENT_PAYMENT], not with [E_CANNOT_SELF_REFER]. *)
Lemma self_referral_underpaid_not_self_refer :
  purchase_with_referral sample_listing {| value := 5 |} 2 2 (tx_start 1)
    = Fail (Aborted E_INSUFFICIENT_PAYMENT) (tx_start 1) /\
  Aborted E_INSUFFICIENT_PAYMENT <> Aborted E_CANNOT_SELF_REFER.
Proof. split; [reflexivity | discriminate]. Qed.

(** C4 (amended). For every listing and every payment,
    [purchase_with_referral] with a referrer equal to the buyer or to the
    listing's seller always fails and transfers no funds; it fails with
    [E_CANNOT_SELF_REFER] when the listing is active and the payment covers
    the price, and otherwise with the error of the earlier check
    ([E_LISTING_NOT_ACTIVE], then [E_INSUFFICIENT_PAYMENT]). *)
Theorem self_referral_always_fails :
  forall (l : Listing) (payment : Coin) (referrer sender : address)
         (s : TxState),
    referrer = sender \/ referrer = seller l ->
    purchase_with_referral l payment referrer sender s
      = Fail (self_referral_failure l payment) s /\
    (is_active l = true -> price l <= value payment ->
     self_referral_failure l payment = Aborted E_CANNOT_SELF_REFER).
Proof.
  intros l payment referrer sender s Hself.
  unfold self_referral_failure. split.
  - unfold purchase_with_referral, Tx.bind, Tx.assert.
    destruct (is_active l); [|reflexivity]. cbn [negb Tx.ret Tx.fail].
    rewrite (Z.ltb_antisym (price l) (value payment)).
    destruct (price l <=? value payment); [|reflexivity]. cbn [negb].
    destruct Hself as [-> | ->].
    + rewrite Z.eqb_refl. reflexivity.
    + rewrite (Z.eqb_refl (seller l)).
      destruct (seller l =? sender); reflexivity.
  - intros -> Hpay. cbn [negb].
    rewrite (proj2 (Z.ltb_ge _ _) Hpay). reflexivity.
Qed.

Lemma self_referral_always_fails_witness :
  purchase_with_referral sample_listing {| value := 999 |} 2 2 (tx_start 1)
    = Fail (Aborted E_CANNOT_SELF_REFER) (tx_start 1).
Proof.
  exact (proj1 (self_referral_always_fails sample_listing {| value := 999 |}
                  2 2 (tx_start 1) (or_introl eq_refl))).
Defined.

(** C6, as stated, does not hold for the event: the event of a plain
    [purchase] is a [PurchaseEvent], which has the fields [listing_id],
    [buyer], [seller] and [price] and no [affiliate_fee]; only
    [AffiliatePurchaseEvent] carries one. *)
Lemma purchase_event_without_affiliate_fee :
  exists s' ev,
    purchase sample_listing {| value := 999 |} 2 (tx_start 1) = Ok tt s' /\
    events s' = [ev] /\
    event_affiliate_fee ev <> Some 0.
Proof.
  exists {| transfers := [(1, {| value := 999 |})];
            events := [EvPurchase {| pe_listing_id := 0; pe_buyer := 2;
                                     pe_seller := 1; pe_price := 999 |}];
            shared := []; fresh := 1 |}.
  exists (EvPurchase {| pe_listing_id := 0; pe_buyer := 2;
                        pe_seller := 1; pe_price := 999 |}).
  split; [reflexivity|]. split; [reflexivity|]. discriminate.
Qed.

(** C6 (amended). For every active listing, [purchase] fails with
    [E_INSUFFICIENT_PAYMENT] exactly when [payment.value < price]; when
    [payment.value >= price] it hands the entire submitted coin (any excess
    over the price included) to the seller, pays nobody else, and emits one
    [PurchaseEvent] with the listing's identity, the buyer, the seller and
    the listing's price; that event has no [affiliate_fee] field. *)
Theorem purchase_pays_seller_in_full :
  forall (l : Listing) (payment : Coin) (sender : address) (s : TxState),
    is_active l = true ->
    (purchase l payment sender s = Fail (Aborted E_INSUFFICIENT_PAYMENT) s
       <-> value payment < price l) /\
    (price l <= value payment ->
     let ev := EvPurchase {| pe_listing_id := id l; pe_buyer := sender;
                             pe_seller := seller l;
                             pe_price := price l |} in
     purchase l payment sender s
       = Ok tt {| transfers := transfers s ++ [(seller l, payment)];
                  events := events s ++ [ev];
                  shared := shared s; fresh := fresh s |} /\
     event_affiliate_fee ev = None).
Proof.
  intros l payment sender s Hact.
  unfold purchase, Tx.bind, Tx.assert. rewrite Hact. cbn [Tx.ret].
  destruct (price l <=? value payment) eqn:Hpay.
  - apply Z.leb_le in Hpay. split.
    + split; [discriminate | lia].
    + intros _. split; reflexivity.
  - apply Z.leb_gt in Hpay. split.
    + split; [intros _; exact Hpay | reflexivity].
    + lia.
Qed.

(** An overpaying buyer: 1500 for a price of 999, all of it to the seller. *)
Lemma purchase_pays_seller_in_full_witness :
  purchase sample_listing {| value := 1500 |} 2 (tx_start 1)
    = Ok tt {| transfers := [(1, {| value := 1500 |})];
               events := [EvPurchase {| pe_listing_id := 0; pe_buyer := 2;
                                        pe_seller := 1; pe_price := 999 |}];
               shared := []; fresh := 1 |}.
Proof.
  refine (proj1 (proj2 (purchase_pays_seller_in_full sample_listing
                          {| value := 1500 |} 2 (tx_start 1) eq_refl) _)).
  vm_compute. discriminate.
Defined.

(** C10. For every listing and every call sent by its seller:
    [deactivate_listing] sets [is_active] to false, [reactivate_listing]
    sets it to true, [update_affiliate_percentage] sets
    [affiliate_percentage] (or, above the maximum, aborts and sets
    nothing); in all three, every other field - [id], [seller], [price],
    [blob_id], [name], [description] - is what it was. *)
Theorem seller_operations_frame :
  forall (l : Listing) (sender : address) (new_percentage : Z),
    sender = seller l ->
    deactivate_listing sender l
      = Ok tt {| id := id l; seller := seller l; price := price l;
                 blob_id := blob_id l; name := name l;
                 description := description l; is_active := false;
                 affiliate_percentage := affiliate_percentage l |} /\
    reactivate_listing sender l
      = Ok tt {| id := id l; seller := seller l; price := price l;
                 blob_id := blob_id l; name := name l;
                 description := description l; is_active := true;
                 affiliate_percentage := affiliate_percentage l |} /\
    update_affiliate_percentage new_percentage sender l
      = (if new_percentage <=? MAX_AFFILIATE_PERCENTAGE
         then Ok tt {| id := id l; seller := seller l; price := price l;
                       blob_id := blob_id l; name := name l;
                       description := description l;
                       is_active := is_active l;
                       affiliate_percentage := new_percentage |}
         else Fail (Aborted E_INVALID_AFFILIATE_PERCENTAGE) l).
Proof.
  intros l sender bp ->.
  unfold deactivate_listing, reactivate_listing, update_affiliate_percentage,
    Tx.bind, Tx.assert, Tx.get, Tx.modify.
  rewrite Z.eqb_refl. cbn [Tx.ret].
  destruct (bp <=? MAX_AFFILIATE_PERCENTAGE); repeat split; reflexivity.
Qed.

Lemma seller_operations_frame_witness :
  deactivate_listing 1 sample_listing = Ok tt paused_listing /\
  reactivate_listing 1 paused_listing = Ok tt sample_listing.
Proof.
  split.
  - exact (proj1 (seller_operations_frame sample_listing 1 0 eq_refl)).
  - exact (proj1 (proj2 (seller_operations_frame paused_listing 1 0 eq_refl))).
Defined.

(* ===================================================================== *)
(** ** Ledger invariants *)
(* ===================================================================== *)

Section LedgerInvariants.

Ltac run :=
  cbv beta iota zeta delta
    [purchase purchase_with_referral create_listing
     create_listing_with_affiliate deactivate_listing reactivate_listing
     update_affiliate_percentage coin_split public_transfer emit
     share_object object_new U64.mul U64.sub U64.div
     Tx.bind Tx.ret Tx.fail Tx.get Tx.modify Tx.assert].

Ltac split_ifs :=
  repeat match goal with
         | |- context [if ?b then _ else _] => destruct b; cbv beta iota
         end.

Lemma create_listing_with_affiliate_run p b n d bp sender s :
  create_listing_with_affiliate p b n d bp sender s =
  if bp <=? MAX_AFFILIATE_PERCENTAGE
  then Ok tt {| transfers := transfers s; events := events s;
                shared := shared s ++ [new_listing (fresh s) sender p b n d bp];
                fresh := fresh s + 1 |}
  else Fail (Aborted E_INVALID_AFFILIATE_PERCENTAGE) s.
Proof. run. destruct (bp <=? MAX_AFFILIATE_PERCENTAGE); reflexivity. Qed.

Lemma purchase_shares_nothing l pay sender s u s' :
  purchase l pay sender s = Ok u s' ->
  shared s' = shared s /\ fresh s' = fresh s.
Proof.
  run. split_ifs; intros H; inversion H; subst; split; reflexivity.
Qed.

Lemma purchase_with_referral_shares_nothing l pay r sender s u s' :
  purchase_with_referral l pay r sender s = Ok u s' ->
  shared s' = shared s /\ fresh s' = fresh s.
Proof.
  run. split_ifs; intros H; inversion H; subst; split; reflexivity.
Qed.

Lemma same_static_refl l : same_static l l.
Proof. repeat split. Qed.

(** The effect of a seller-only entry point on the borrowed listing. *)
Lemma mut_entry_effect sender c l u l' :
  match c with
  | DeactivateListing _ => deactivate_listing sender l = Ok u l'
  | ReactivateListing _ => reactivate_listing sender l = Ok u l'
  | UpdateAffiliatePercentage _ bp =>
      update_affiliate_percentage bp sender l = Ok u l'
  | _ => False
  end ->
  same_static l l' /\
  (affiliate_percentage l' = affiliate_percentage l \/
   affiliate_percentage l' <= MAX_AFFILIATE_PERCENTAGE /\
   exists k, c = UpdateAffiliatePercentage k (affiliate_percentage l')).
Proof.
  destruct c; try contradiction; run.
  - destruct (sender =? seller l); intros H; inversion H; subst.
    split; [repeat split | left; reflexivity].
  - destruct (sender =? seller l); intros H; inversion H; subst.
    split; [repeat split | left; reflexivity].
  - destruct (sender =? seller l); cbv beta iota; [|discriminate].
    destruct (new_percentage <=? MAX_AFFILIATE_PERCENTAGE) eqn:Hbp;
      intros H; inversion H; subst.
    split; [repeat split | right]. cbn [affiliate_percentage].
    split; [apply Z.leb_le; exact Hbp | eexists; reflexivity].
Qed.

(** How a listing found after a call relates to the ledger before it:
    either it was there, with the same static fields and a commission
    that only an accepted update changed, or the call created it. *)
Lemma execute_lookup sender c L lid l' :
  objects (fst (execute sender c L)) !! lid = Some l' ->
  (exists l, objects L !! lid = Some l /\ same_static l l' /\
     (affiliate_percentage l' = affiliate_percentage l \/
      affiliate_percentage l' <= MAX_AFFILIATE_PERCENTAGE /\
      exists k, c = UpdateAffiliatePercentage k (affiliate_percentage l')))
  \/
  (lid = next_id L /\
   next_id (fst (execute sender c L)) = next_id L + 1 /\
   match c with
   | CreateListing p b n d =>
       l' = new_listing (next_id L) sender p b n d 0
   | CreateListingWithAffiliate p b n d bp =>
       bp <= MAX_AFFILIATE_PERCENTAGE /\
       l' = new_listing (next_id L) sender p b n d bp
   | _ => False
   end).
Proof.
  assert (forall l, objects L !! lid = Some l ->
            exists l0, objects L !! lid = Some l0 /\ same_static l0 l /\
              (affiliate_percentage l = affiliate_percentage l0 \/
               affiliate_percentage l <= MAX_AFFILIATE_PERCENTAGE /\
               exists k,
                 c = UpdateAffiliatePercentage k (affiliate_percentage l)))
    as Hsame.
  { intros l Hl. exists l.
    split; [exact Hl | split; [apply same_static_refl | left; reflexivity]]. }
  assert (forall p b n d bp,
    objects (fst (run_tx L
      (create_listing_with_affiliate p b n d bp sender))) !! lid = Some l' ->
    (exists l, objects L !! lid = Some l /\ same_static l l' /\
       (affiliate_percentage l' = affiliate_percentage l \/
        affiliate_percentage l' <= MAX_AFFILIATE_PERCENTAGE /\
        exists k, c = UpdateAffiliatePercentage k (affiliate_percentage l')))
    \/ (lid = next_id L /\
        next_id (fst (run_tx L
          (create_listing_with_affiliate p b n d bp sender)))
          = next_id L + 1 /\
        bp <= MAX_AFFILIATE_PERCENTAGE /\
        l' = new_listing (next_id L) sender p b n d bp)) as Hcreate.
  { intros p b n d bp. unfold run_tx.
    rewrite create_listing_with_affiliate_run.
    destruct (bp <=? MAX_AFFILIATE_PERCENTAGE) eqn:Hbp; cbn.
    - unfold publish. cbn [id new_listing].
      destruct (decide (next_id L = lid)) as [<- | Hne].
      + rewrite lookup_insert_eq. intros [= <-]. right.
        repeat split. apply Z.leb_le, Hbp.
      + rewrite lookup_insert_ne by exact Hne. intros H. left.
        apply Hsame, H.
    - intros H. left. apply Hsame, H. }
  destruct c as [p b n d | p b n d bp | k pay | k pay r | k | k | k bp];
    cbn [execute].
  - unfold create_listing. intros H.
    destruct (Hcreate p b n d 0 H) as [Hl | (-> & Hn & _ & ->)];
      [left; exact Hl | right; repeat split; exact Hn].
  - intros H.
    destruct (Hcreate p b n d bp H) as [Hl | (-> & Hn & Hbp & ->)];
      [left; exact Hl | right; repeat split; assumption].
  - unfold with_listing. destruct (objects L !! k) as [l|];
      [|intros H; left; apply Hsame, H].
    unfold run_tx.
    destruct (purchase l pay sender (tx_start (next_id L)))
      as [u s'|f s'] eqn:Hrun; [|intros H; left; apply Hsame, H].
    apply purchase_shares_nothing in Hrun as [Hsh _].
    cbn. rewrite Hsh. cbn. intros H; left; apply Hsame, H.
  - unfold with_listing. destruct (objects L !! k) as [l|];
      [|intros H; left; apply Hsame, H].
    unfold run_tx.
    destruct (purchase_with_referral l pay r sender (tx_start (next_id L)))
      as [u s'|f s'] eqn:Hrun; [|intros H; left; apply Hsame, H].
    apply purchase_with_referral_shares_nothing in Hrun as [Hsh _].
    cbn. rewrite Hsh. cbn. intros H; left; apply Hsame, H.
  - unfold run_mut, with_listing.
    destruct (objects L !! k) as [l|] eqn:Hk;
      [|intros H; left; apply Hsame, H].
    destruct (deactivate_listing sender l) as [u l1|f l1] eqn:Hrun;
      [|intros H; left; apply Hsame, H].
    cbn. destruct (decide (k = lid)) as [<- | Hne].
    + rewrite lookup_insert_eq. intros [= <-]. left. exists l.
      split; [exact Hk|].
      apply (mut_entry_effect sender (DeactivateListing k) l u l1 Hrun).
    + rewrite lookup_insert_ne by exact Hne.
      intros H; left; apply Hsame, H.
  - unfold run_mut, with_listing.
    destruct (objects L !! k) as [l|] eqn:Hk;
      [|intros H; left; apply Hsame, H].
    destruct (reactivate_listing sender l) as [u l1|f l1] eqn:Hrun;
      [|intros H; left; apply Hsame, H].
    cbn. destruct (decide (k = lid)) as [<- | Hne].
    + rewrite lookup_insert_eq. intros [= <-]. left. exists l.
      split; [exact Hk|].
      apply (mut_entry_effect sender (ReactivateListing k) l u l1 Hrun).
    + rewrite lookup_insert_ne by exact Hne.
      intros H; left; apply Hsame, H.
  - unfold run_mut, with_listing.
    destruct (objects L !! k) as [l|] eqn:Hk;
      [|intros H; left; apply Hsame, H].
    destruct (update_affiliate_percentage bp sender l)
      as [u l1|f l1] eqn:Hrun; [|intros H; left; apply Hsame, H].
    cbn. destruct (decide (k = lid)) as [<- | Hne].
    + rewrite lookup_insert_eq. intros [= <-]. left. exists l.
      split; [exact Hk|].
      apply (mut_entry_effect sender (UpdateAffiliatePercentage k bp)
               l u l1 Hrun).
    + rewrite lookup_insert_ne by exact Hne.
      intros H; left; apply Hsame, H.
Qed.

Lemma execute_next_id_le sender c L :
  next_id L <= next_id (fst (execute sender c L)).
Proof.
  destruct c as [p b n d | p b n d bp | k pay | k pay r | k | k | k bp];
    cbn [execute]; unfold create_listing, with_listing, run_mut,
    with_listing, run_tx;
    try rewrite create_listing_with_affiliate_run.
  - cbn. lia.
  - destruct (bp <=? MAX_AFFILIATE_PERCENTAGE); cbn; lia.
  - destruct (objects L !! k) as [l|]; cbv beta iota; [|cbn; lia].
    destruct (purchase l pay sender (tx_start (next_id L)))
      as [u s'|f s'] eqn:Hrun; cbn; [|lia].
    apply purchase_shares_nothing in Hrun as [_ ->]. cbn. lia.
  - destruct (objects L !! k) as [l|]; cbv beta iota; [|cbn; lia].
    destruct (purchase_with_referral l pay r sender (tx_start (next_id L)))
      as [u s'|f s'] eqn:Hrun; cbn; [|lia].
    apply purchase_with_referral_shares_nothing in Hrun as [_ ->]. cbn. lia.
  - destruct (objects L !! k) as [l|]; cbv beta iota; [|cbn; lia].
    destruct (deactivate_listing sender l); cbn; lia.
  - destruct (objects L !! k) as [l|]; cbv beta iota; [|cbn; lia].
    destruct (reactivate_listing sender l); cbn; lia.
  - destruct (objects L !! k) as [l|]; cbv beta iota; [|cbn; lia].
    destruct (update_affiliate_percentage bp sender l); cbn; lia.
Qed.

(** A listing stays in the ledger, with its static fields, as long as no
    creation is given its identity. *)
Lemma execute_keeps sender c L lid l :
  objects L !! lid = Some l -> lid <> next_id L ->
  exists l', objects (fst (execute sender c L)) !! lid = Some l' /\
             same_static l l'.
Proof.
  intros Hl Hfresh.
  assert (exists l', objects L !! lid = Some l' /\ same_static l l') as Hsame
      by (exists l; split; [exact Hl | apply same_static_refl]).
  assert (forall m : M Listing unit, forall k,
    (forall l0 u l1, m l0 = Ok u l1 -> same_static l0 l1) ->
    exists l', objects (fst (run_mut L k m)) !! lid = Some l'
               /\ same_static l l') as Hmut.
  { intros m k Hm. unfold run_mut, with_listing.
    destruct (objects L !! k) as [l0|] eqn:Hk; [|exact Hsame].
    destruct (m l0) as [u l1|f l1] eqn:Hrun; [|exact Hsame].
    cbn. destruct (decide (k = lid)) as [-> | Hne].
    - rewrite lookup_insert_eq. exists l1. split; [reflexivity|].
      rewrite Hl in Hk. injection Hk as <-. eapply Hm, Hrun.
    - rewrite lookup_insert_ne by exact Hne. exact Hsame. }
  destruct c as [p b n d | p b n d bp | k pay | k pay r | k | k | k bp];
    cbn [execute]; unfold create_listing, with_listing, run_tx;
    try rewrite create_listing_with_affiliate_run.
  - cbn. unfold publish. cbn [id new_listing].
    rewrite lookup_insert_ne by congruence. exact Hsame.
  - destruct (bp <=? MAX_AFFILIATE_PERCENTAGE); cbn; [|exact Hsame].
    unfold publish. cbn [id new_listing].
    rewrite lookup_insert_ne by congruence. exact Hsame.
  - destruct (objects L !! k) as [l0|]; [|exact Hsame].
    destruct (purchase l0 pay sender (tx_start (next_id L)))
      as [u s'|f s'] eqn:Hrun; [|exact Hsame].
    apply purchase_shares_nothing in Hrun as [Hsh _].
    cbn. rewrite Hsh. exact Hsame.
  - destruct (objects L !! k) as [l0|]; [|exact Hsame].
    destruct (purchase_with_referral l0 pay r sender (tx_start (next_id L)))
      as [u s'|f s'] eqn:Hrun; [|exact Hsame].
    apply purchase_with_referral_shares_nothing in Hrun as [Hsh _].
    cbn. rewrite Hsh. exact Hsame.
  - apply Hmut. intros l0 u l1 Hrun.
    apply (mut_entry_effect sender (DeactivateListing k) l0 u l1 Hrun).
  - apply Hmut. intros l0 u l1 Hrun.
    apply (mut_entry_effect sender (ReactivateListing k) l0 u l1 Hrun).
  - apply Hmut. intros l0 u l1 Hrun.
    apply (mut_entry_effect sender (UpdateAffiliatePercentage k bp)
             l0 u l1 Hrun).
Qed.

(** Identities in use lie below the next one to be handed out. *)
Lemma reachable_ids_below_next P L :
  reachable_by P L ->
  forall lid l, objects L !! lid = Some l -> lid < next_id L.
Proof.
  induction 1 as [|L sender c Hreach IH Hwf HP]; intros lid l Hl.
  - cbn in Hl. rewrite lookup_empty in Hl. discriminate.
  - apply execute_lookup in Hl as [(l0 & Hl0 & _) | (-> & Hn & _)].
    + pose proof (IH _ _ Hl0). pose proof (execute_next_id_le sender c L).
      lia.
    + lia.
Qed.

Lemma reachable_by_weaken P L : reachable_by P L -> reachable L.
Proof.
  induction 1 as [|L sender c Hreach IH Hwf HP]; [constructor|].
  constructor; [exact IH | exact Hwf | exact I].
Qed.

(** The commission of every listing of a reachable ledger is in range. *)
Lemma reachable_commission_in_range L :
  reachable L ->
  forall lid l, objects L !! lid = Some l ->
                0 <= affiliate_percentage l <= MAX_AFFILIATE_PERCENTAGE.
Proof.
  induction 1 as [|L sender c Hreach IH Hwf HP]; intros lid l Hl.
  - cbn in Hl. rewrite lookup_empty in Hl. discriminate.
  - apply execute_lookup in Hl
      as [(l0 & Hl0 & _ & [-> | (Hmax & k & ->)]) | (_ & _ & Hc)].
    + exact (IH _ _ Hl0).
    + cbn in Hwf. unfold U64.in_range in Hwf. lia.
    + destruct c; try contradiction.
      * subst l. cbn. unfold MAX_AFFILIATE_PERCENTAGE. lia.
      * destruct Hc as [Hmax ->]. cbn in *. unfold U64.in_range in Hwf.
        lia.
Qed.

(** Price and locator of every listing are positive and non-empty when
    every creation asked for that. *)
Lemma reachable_priced_and_located L :
  reachable_by priced_and_located L ->
  forall lid l, objects L !! lid = Some l ->
                0 < price l /\ blob_id l <> [].
Proof.
  induction 1 as [|L sender c Hreach IH Hwf HP]; intros lid l Hl.
  - cbn in Hl. rewrite lookup_empty in Hl. discriminate.
  - apply execute_lookup in Hl
      as [(l0 & Hl0 & Hst & _) | (_ & _ & Hc)].
    + destruct Hst as (_ & _ & -> & -> & _). exact (IH _ _ Hl0).
    + destruct c; try contradiction.
      * subst l. exact HP.
      * destruct Hc as [_ ->]. exact HP.
Qed.

End LedgerInvariants.

(** C2, as stated, does not hold for every commission update: the
    seller-only check of [update_affiliate_percentage] runs before the range
    check, so an out-of-range update sent by anyone but the seller aborts
    with code 1 (not authorised), not with
    [E_INVALID_AFFILIATE_PERCENTAGE]. *)
Lemma update_commission_by_stranger_unauthorized :
  MAX_AFFILIATE_PERCENTAGE < 1001 /\
  update_affiliate_percentage 1001 2 sample_listing
    = Fail (Aborted 1) sample_listing /\
  Aborted 1 <> Aborted E_INVALID_AFFILIATE_PERCENTAGE.
Proof. split; [reflexivity | split; [reflexivity | discriminate]]. Qed.

(** C2 (amended). For every [affiliate_bp > 1000]:
    listing creation aborts with [E_INVALID_AFFILIATE_PERCENTAGE] before
    anything is done, and the ledger is left as it was (no listing is
    created); a commission update aborts with the listing untouched - with
    [E_INVALID_AFFILIATE_PERCENTAGE] when sent by the seller, with the
    authorisation code 1 otherwise - and the ledger is left as it was.
    Consequently every listing of every reachable ledger satisfies
    [0 <= affiliate_bp <= 1000]. *)
Theorem commission_above_max_rejected :
  forall bp : Z,
    MAX_AFFILIATE_PERCENTAGE < bp ->
    (forall p b n d sender s,
       create_listing_with_affiliate p b n d bp sender s
         = Fail (Aborted E_INVALID_AFFILIATE_PERCENTAGE) s) /\
    (forall p b n d sender L,
       execute sender (CreateListingWithAffiliate p b n d bp) L
         = (L, Failure (Aborted E_INVALID_AFFILIATE_PERCENTAGE))) /\
    (forall l sender,
       update_affiliate_percentage bp sender l
         = Fail (Aborted (if sender =? seller l
                          then E_INVALID_AFFILIATE_PERCENTAGE else 1)) l) /\
    (forall L lid sender,
       fst (execute sender (UpdateAffiliatePercentage lid bp) L) = L /\
       snd (execute sender (UpdateAffiliatePercentage lid bp) L) <> Success) /\
    (forall L, reachable L ->
       forall lid l, objects L !! lid = Some l ->
         0 <= affiliate_percentage l <= MAX_AFFILIATE_PERCENTAGE).
Proof.
  intros bp Hbp. apply Z.leb_gt in Hbp.
  assert (forall l sender,
       update_affiliate_percentage bp sender l
         = Fail (Aborted (if sender =? seller l
                          then E_INVALID_AFFILIATE_PERCENTAGE else 1)) l)
    as Hupd.
  { intros l sender.
    unfold update_affiliate_percentage, Tx.bind, Tx.assert, Tx.get.
    destruct (sender =? seller l); [|reflexivity].
    cbn [Tx.ret]. rewrite Hbp. reflexivity. }
  repeat apply conj.
  - intros. rewrite create_listing_with_affiliate_run, Hbp. reflexivity.
  - intros. cbn [execute]. unfold run_tx.
    rewrite create_listing_with_affiliate_run, Hbp. reflexivity.
  - exact Hupd.
  - intros L lid sender. cbn [execute]. unfold run_mut, with_listing.
    destruct (objects L !! lid) as [l|]; [|split; [reflexivity|discriminate]].
    rewrite Hupd. split; [reflexivity|discriminate].
  - exact reachable_commission_in_range.
Qed.

Lemma commission_above_max_rejected_witness :
  create_listing_with_affiliate 999 [98] [110] [100] 1001 1 (tx_start 0)
    = Fail (Aborted E_INVALID_AFFILIATE_PERCENTAGE) (tx_start 0) /\
  update_affiliate_percentage 1001 1 sample_listing
    = Fail (Aborted E_INVALID_AFFILIATE_PERCENTAGE) sample_listing.
Proof.
  pose proof (commission_above_max_rejected 1001 eq_refl) as (H1 & _ & H3 & _).
  split.
  - apply H1.
  - apply (H3 sample_listing 1).
Defined.

(** C5, as stated, does not hold: [create_listing_with_affiliate] checks
    the commission and nothing else, so a creation with price 0 and an empty
    locator succeeds, and the reachable ledger it gives holds a listing with
    [price = 0] and [blob_id = []]. *)
Lemma free_unlocated_listing_created :
  snd (execute 1 (CreateListing 0 [] [110] [100]) genesis) = Success /\
  reachable (fst (execute 1 (CreateListing 0 [] [110] [100]) genesis)) /\
  exists l,
    objects (fst (execute 1 (CreateListing 0 [] [110] [100]) genesis)) !! 0
      = Some l /\
    price l = 0 /\ blob_id l = [].
Proof.
  split; [reflexivity|]. split.
  - apply reach_step; [apply reach_genesis | | exact I].
    cbn. unfold U64.in_range, U64.MAX. lia.
  - exists (new_listing 0 1 0 [] [110] [100] 0).
    split; [|split; reflexivity].
    cbn. unfold publish. cbn [id]. apply lookup_insert_eq.
Qed.

(** C5 (amended). Listing creation validates the commission only: for every
    [u64] price, zero included, and every locator, the empty one included,
    a creation with [affiliate_bp <= 1000] succeeds and shares a listing
    with exactly that price and locator.  No entry point writes [price],
    [blob_id] or [seller]: a listing of a reachable ledger is still there
    after any call, with these fields unchanged.  Hence a listing has a
    positive price and a non-empty locator when it was created with them:
    in every ledger reached by calls whose creations name a price [> 0] and
    a non-empty locator, every listing has [price > 0] and a non-empty
    [blob_id]. *)
Theorem listing_price_and_locator_as_created :
  (forall L sender p b n d bp,
     bp <= MAX_AFFILIATE_PERCENTAGE ->
     snd (execute sender (CreateListingWithAffiliate p b n d bp) L)
       = Success /\
     objects (fst (execute sender (CreateListingWithAffiliate p b n d bp) L))
       !! next_id L
       = Some {| id := next_id L; seller := sender; price := p;
                 blob_id := b; name := n; description := d;
                 is_active := true; affiliate_percentage := bp |}) /\
  (forall L sender c lid l,
     reachable L -> objects L !! lid = Some l ->
     exists l',
       objects (fst (execute sender c L)) !! lid = Some l' /\
       price l' = price l /\ blob_id l' = blob_id l /\
       seller l' = seller l) /\
  (forall L,
     reachable_by priced_and_located L ->
     forall lid l, objects L !! lid = Some l ->
       0 < price l /\ blob_id l <> []).
Proof.
  repeat apply conj.
  - intros L sender p b n d bp Hbp. apply Z.leb_le in Hbp.
    cbn [execute]. unfold run_tx.
    rewrite create_listing_with_affiliate_run, Hbp. cbn.
    split; [reflexivity|]. unfold publish. cbn [id new_listing].
    apply lookup_insert_eq.
  - intros L sender c lid l Hreach Hl.
    pose proof (reachable_ids_below_next _ _ Hreach _ _ Hl) as Hlt.
    destruct (execute_keeps sender c L lid l Hl ltac:(lia))
      as (l' & Hl' & _ & Hs & Hp & Hb & _).
    exists l'. repeat split; assumption.
  - exact reachable_priced_and_located.
Qed.

Lemma listing_price_and_locator_as_created_witness :
  snd (execute 1 (CreateListingWithAffiliate 0 [] [110] [100] 500) genesis)
    = Success /\
  objects (fst (execute 1 (CreateListingWithAffiliate 0 [] [110] [100] 500)
                  genesis)) !! 0
    = Some {| id := 0; seller := 1; price := 0; blob_id := [];
              name := [110]; description := [100]; is_active := true;
              affiliate_percentage := 500 |}.
Proof.
  apply (proj1 listing_price_and_locator_as_created genesis 1 0 [] [110] [100]
           500).
  vm_compute. discriminate.
Defined.

(* ===================================================================== *)
(** ** Properties of base64, key serialisation and framing *)
(* ===================================================================== *)

Ltac Zify.zify_post_hook ::= Z.to_euclidean_division_equations.

Section Base64Properties.
Import Base64.
Local Open Scope N_scope.

(** Induction on a list by groups of three. *)
Lemma list_ind_by_three {A} (P : list A -> Prop) :
  P [] -> (forall a, P [a]) -> (forall a b, P [a; b]) ->
  (forall a b c l, P l -> P (a :: b :: c :: l)) ->
  forall l, P l.
Proof.
  intros H0 H1 H2 H3.
  assert (forall l, P l /\ (forall a, P (a :: l))
                    /\ (forall a b, P (a :: b :: l))) as H.
  { induction l as [|x l (IH0 & IH1 & IH2)].
    - repeat split; auto.
    - repeat split; auto. }
  intros l. apply H.
Qed.

(** The alphabet is injective, never yields the padding sign and never
    yields white space. *)
Lemma sextet_char n :
  n < 64 ->
  decode_char (encode_sextet n) = Some n /\
  Ascii.eqb (encode_sextet n) pad = false /\
  is_ascii_whitespace (encode_sextet n) = false.
Proof.
  intros Hn. destruct n as [|p]; [vm_compute; auto|].
  do 6 (try destruct p as [p|p|]); try (exfalso; lia);
    vm_compute; auto.
Qed.

Lemma sextets_bounded bs :
  Forall (fun b => b < 256) bs -> Forall (fun n => n < 64) (sextets bs).
Proof.
  induction bs as [|a|a b|a b c l IH] using list_ind_by_three;
    intros H; cbn [sextets].
  - constructor.
  - inversion_clear H. repeat constructor; lia.
  - inversion_clear H as [|? ? Ha H']. inversion_clear H'.
    repeat constructor; lia.
  - inversion_clear H as [|? ? Ha H']. inversion_clear H' as [|? ? Hb H''].
    inversion_clear H'' as [|? ? Hc Hl].
    repeat (constructor; [lia|]). apply IH, Hl.
Qed.

Lemma encode_bytes_split bs :
  encode_bytes bs = map encode_sextet (sextets bs) ++ padding bs.
Proof.
  induction bs as [|a|a b|a b c l IH] using list_ind_by_three;
    cbn [encode_bytes sextets padding map app]; try reflexivity.
  rewrite IH. reflexivity.
Qed.

Lemma decode_sextets_sextets bs :
  Forall (fun b => b < 256) bs -> decode_sextets (sextets bs) = bs.
Proof.
  induction bs as [|a|a b|a b c l IH] using list_ind_by_three;
    intros H; cbn [sextets decode_sextets].
  - reflexivity.
  - inversion_clear H. f_equal. lia.
  - inversion_clear H as [|? ? Ha H']. inversion_clear H'.
    f_equal; [lia|]. f_equal. lia.
  - inversion_clear H as [|? ? Ha H']. inversion_clear H' as [|? ? Hb H''].
    inversion_clear H'' as [|? ? Hc Hl].
    rewrite (IH Hl). f_equal; [lia|]. f_equal; [lia|]. f_equal. lia.
Qed.

Lemma decode_chars_encode ss :
  Forall (fun n => n < 64) ss ->
  decode_chars (map encode_sextet ss) = Some ss.
Proof.
  induction 1 as [|n ss Hn _ IH]; cbn [map decode_chars]; [reflexivity|].
  destruct (sextet_char n Hn) as (-> & _). rewrite IH. reflexivity.
Qed.

Lemma filter_all_true {A} (f : A -> bool) l :
  Forall (fun x => f x = true) l -> List.filter f l = l.
Proof.
  induction 1 as [|x l Hx _ IH]; cbn [List.filter]; [reflexivity|].
  rewrite Hx, IH. reflexivity.
Qed.

Lemma padding_cases bs :
  padding bs = [] \/ padding bs = [pad] \/ padding bs = [pad; pad].
Proof.
  induction bs as [|a|a b|a b c l IH] using list_ind_by_three;
    cbn [padding]; auto.
Qed.

Lemma encode_bytes_no_whitespace bs :
  Forall (fun b => b < 256) bs ->
  Forall (fun c => negb (is_ascii_whitespace c) = true) (encode_bytes bs).
Proof.
  intros H. rewrite encode_bytes_split. apply Forall_app. split.
  - apply sextets_bounded in H. induction H as [|n ss Hn _ IH];
      cbn [map]; constructor; [|exact IH].
    destruct (sextet_char n Hn) as (_ & _ & ->). reflexivity.
  - destruct (padding_cases bs) as [-> | [-> | ->]];
      repeat constructor.
Qed.

(** The encoding is a whole number of groups of four characters. *)
Lemma encode_bytes_length bs :
  (length (encode_bytes bs) = 4 * ((length bs + 2) / 3))%nat.
Proof.
  induction bs as [|a|a b|a b c l IH] using list_ind_by_three;
    cbn [encode_bytes length]; try reflexivity.
  rewrite IH.
  replace (S (S (S (length l))) + 2)%nat with (length l + 2 + 1 * 3)%nat
    by lia.
  rewrite Nat.div_add by discriminate. lia.
Qed.

(** Without its padding, the encoding never has one character more than
    a whole number of groups. *)
Lemma sextets_length_mod bs :
  N.of_nat (length (sextets bs)) mod 4 <> 1.
Proof.
  induction bs as [|a|a b|a b c l IH] using list_ind_by_three;
    cbn [sextets length]; try (vm_compute; discriminate).
  lia.
Qed.

Lemma sextets_nonempty bs : bs <> [] -> sextets bs <> [].
Proof.
  destruct bs as [|a [|b [|c l]]]; cbn [sextets]; congruence.
Qed.

Lemma padding_empty bs : padding bs <> [] -> bs <> [].
Proof. destruct bs; cbn [padding]; congruence. Qed.

Lemma strip_padding_encode bs :
  Forall (fun b => b < 256) bs ->
  strip_padding (encode_bytes bs) = map encode_sextet (sextets bs).
Proof.
  intros H. unfold strip_padding.
  replace (N.of_nat (length (encode_bytes bs)) mod 4 =? 0) with true
    by (symmetry; apply N.eqb_eq; rewrite encode_bytes_length; lia).
  rewrite encode_bytes_split.
  pose proof (sextets_bounded bs H) as Hs.
  set (ss := sextets bs) in *.
  assert (forall c r, rev (map encode_sextet ss) = c :: r ->
                      Ascii.eqb c pad = false) as Hlast.
  { intros c r Hrev.
    assert (In c (map encode_sextet ss)) as Hin
        by (apply in_rev; rewrite Hrev; left; reflexivity).
    apply in_map_iff in Hin as (n & <- & Hn).
    rewrite List.Forall_forall in Hs. apply (sextet_char n), Hs, Hn. }
  destruct (padding_cases bs) as [E | [E | E]].
  - rewrite E, app_nil_r.
    destruct (rev (map encode_sextet ss)) as [|c1 [|c2 r]] eqn:Hrev;
      try reflexivity.
    rewrite (Hlast c1 (c2 :: r) eq_refl). reflexivity.
  - rewrite E, rev_app_distr. cbn [rev app].
    assert (ss <> []) as Hne
        by (apply sextets_nonempty, padding_empty; rewrite E; discriminate).
    destruct (rev (map encode_sextet ss)) as [|c2 r] eqn:Hrev.
    + apply (f_equal (@rev ascii)) in Hrev. rewrite rev_involutive in Hrev.
      destruct ss; [congruence | discriminate].
    + change (Ascii.eqb pad pad) with true. cbv iota.
      rewrite (Hlast c2 r eq_refl).
      change (rev r ++ [c2]) with (rev (c2 :: r)).
      rewrite <- Hrev. apply rev_involutive.
  - rewrite E, rev_app_distr. cbn [rev app].
    change (Ascii.eqb pad pad) with true. cbv iota.
    apply rev_involutive.
Qed.

(** [atob] undoes [btoa] on every binary string. *)
Lemma atob_btoa s : atob (btoa s) = Some s.
Proof.
  unfold atob, btoa. rewrite list_ascii_of_string_of_list_ascii.
  set (bs := map N_of_ascii (list_ascii_of_string s)).
  assert (Forall (fun b => b < 256) bs) as Hbs.
  { apply List.Forall_forall. intros b Hb.
    apply in_map_iff in Hb as (c & <- & _). apply N_ascii_bounded. }
  rewrite (filter_all_true _ _ (encode_bytes_no_whitespace bs Hbs)).
  rewrite (strip_padding_encode bs Hbs).
  rewrite length_map.
  destruct (N.of_nat (length (sextets bs)) mod 4 =? 1) eqn:Hmod.
  - apply N.eqb_eq in Hmod. destruct (sextets_length_mod bs Hmod).
  - rewrite (decode_chars_encode _ (sextets_bounded bs Hbs)).
    rewrite (decode_sextets_sextets bs Hbs). unfold bs.
    rewrite map_map.
    rewrite (map_ext _ (fun c => c) ascii_N_embedding), map_id.
    rewrite string_of_list_ascii_of_string. reflexivity.
Qed.

End Base64Properties.

Section CryptoUtilsProperties.
Import Base64 CryptoUtils.

Lemma string_bytes_bounded s :
  Forall (fun b => (b < 256)%N) (map N_of_ascii (list_ascii_of_string s)).
Proof.
  apply List.Forall_forall. intros b Hb.
  apply in_map_iff in Hb as (c & <- & _). apply N_ascii_bounded.
Qed.

(** [btoa] writes alphabet characters and padding signs only. *)
Lemma btoa_base64_chars s :
  forallb base64_char (list_ascii_of_string (btoa s)) = true.
Proof.
  unfold btoa. rewrite list_ascii_of_string_of_list_ascii.
  set (bs := map N_of_ascii (list_ascii_of_string s)).
  pose proof (sextets_bounded bs (string_bytes_bounded s)) as Hs.
  rewrite encode_bytes_split, forallb_app. apply andb_true_iff. split.
  - induction Hs as [|n ss Hn _ IH]; cbn [map forallb]; [reflexivity|].
    rewrite IH, andb_true_r. unfold base64_char.
    destruct (sextet_char n Hn) as (-> & _). reflexivity.
  - destruct (padding_cases bs) as [-> | [-> | ->]]; reflexivity.
Qed.

Lemma string_of_list_ascii_length l :
  String.length (string_of_list_ascii l) = length l.
Proof.
  induction l as [|c l IH]; cbn [string_of_list_ascii String.length length];
    congruence.
Qed.

Lemma btoa_length s :
  String.length (btoa s) = (4 * ((String.length s + 2) / 3))%nat.
Proof.
  unfold btoa.
  rewrite <- (string_of_list_ascii_of_string s) at 2.
  rewrite !string_of_list_ascii_length, encode_bytes_length, length_map.
  reflexivity.
Qed.

(** Framing writes the IV, whatever its length, in front of the
    ciphertext. *)
Lemma createEncryptedPayload_app encryptedBlob iv :
  createEncryptedPayload encryptedBlob iv = Some (iv ++ encryptedBlob).
Proof.
  unfold createEncryptedPayload, Uint8Array_set, Uint8Array_new.
  rewrite repeat_length. cbn [Nat.add firstn app].
  replace (length iv <=? length iv + length encryptedBlob)%nat with true
    by (symmetry; apply Nat.leb_le; lia).
  set (rest := skipn (length iv)
                 (repeat Byte.x00 (length iv + length encryptedBlob))).
  assert (length rest = length encryptedBlob) as Hrest
      by (unfold rest; rewrite length_skipn, repeat_length; lia).
  rewrite !firstn_O. cbn [app].
  rewrite length_app, Hrest, Nat.leb_refl.
  rewrite firstn_app, firstn_all, Nat.sub_diag. cbn [firstn].
  rewrite skipn_all2 by (rewrite length_app; lia).
  rewrite !app_nil_r. reflexivity.
Qed.

Lemma parseEncryptedPayload_app payload :
  parseEncryptedPayload payload
    = {| iv := firstn 12 payload; encryptedData := skipn 12 payload |}.
Proof.
  unfold parseEncryptedPayload, Uint8Array_slice. f_equal.
  - rewrite Nat.min_0_l, Nat.sub_0_r, skipn_O.
    destruct (Nat.le_ge_cases 12 (length payload)) as [H | H].
    + rewrite Nat.min_l by exact H. reflexivity.
    + rewrite Nat.min_r by exact H.
      rewrite !firstn_all2 by lia. reflexivity.
  - destruct (Nat.le_ge_cases 12 (length payload)) as [H | H].
    + rewrite Nat.min_l by exact H.
      apply firstn_all2. rewrite length_skipn. lia.
    + rewrite Nat.min_r by exact H.
      rewrite Nat.sub_diag, (skipn_all2 (n := 12) payload) by exact H.
      rewrite skipn_all. reflexivity.
Qed.

End CryptoUtilsProperties.

(** C7. For every byte string [ciphertext] and every [iv] of the fixed
    size of twelve bytes: framing succeeds, the payload is the IV followed
    by the ciphertext, and unframing the payload - slicing the twelve-byte
    prefix back off - gives back the pair [(ciphertext, iv)]. *)
Theorem unframe_frame_roundtrip :
  forall ciphertext iv : list Byte.byte,
    length iv = 12%nat ->
    createEncryptedPayload ciphertext iv = Some (iv ++ ciphertext) /\
    parseEncryptedPayload (iv ++ ciphertext)
      = {| iv := iv; encryptedData := ciphertext |}.
Proof.
  intros ciphertext iv Hlen. split.
  - apply createEncryptedPayload_app.
  - rewrite parseEncryptedPayload_app. f_equal.
    + rewrite firstn_app, Hlen. cbn [Nat.sub firstn].
      rewrite app_nil_r. apply firstn_all2. lia.
    + rewrite skipn_app, Hlen. cbn [Nat.sub skipn].
      rewrite skipn_all2 by lia. reflexivity.
Qed.

Lemma unframe_frame_roundtrip_witness :
  createEncryptedPayload [Byte.xca; Byte.xfe] sample_iv
    = Some (sample_iv ++ [Byte.xca; Byte.xfe]) /\
  parseEncryptedPayload (sample_iv ++ [Byte.xca; Byte.xfe])
    = {| iv := sample_iv; encryptedData := [Byte.xca; Byte.xfe] |}.
Proof.
  apply (unframe_frame_roundtrip [Byte.xca; Byte.xfe] sample_iv eq_refl).
Defined.

(** Every character that [btoa] writes may stand in a URL fragment. *)
Lemma base64_char_url_safe (c : ascii) :
  base64_char c = true -> url_safe_char c = true.
Proof.
  destruct c as [[] [] [] [] [] [] [] []]; vm_compute; auto.
Qed.

(** Every key that [generateEncryptionKey] makes has 256 bits and can be
    exported. *)
Lemma generated_key_exportable (random : Uint8Array) (key : CryptoKey) :
  generateEncryptionKey random = Some key ->
  length (raw key) = 32%nat /\ extractable key = true.
Proof.
  unfold generateEncryptionKey.
  destruct (length random =? 32)%nat eqn:Hlen; [|discriminate].
  intros [= <-]. cbn. split; [apply Nat.eqb_eq, Hlen | reflexivity].
Qed.

(** C8. For every 256-bit key that can be exported (the keys of
    [generateEncryptionKey] are):
    [importKeyFromBase64 (exportKeyToBase64 key)] succeeds and holds exactly
    the raw bytes of [key], and the exported string is safe in the URL
    fragment it is made for: it is standard base64, 44 characters drawn
    from the letters, the digits, plus, slash and the equals sign, each of
    which a fragment may carry unescaped. *)
Theorem export_import_key_roundtrip :
  forall key : CryptoKey,
    length (raw key) = 32%nat ->
    extractable key = true ->
    exists exported imported,
      exportKeyToBase64 key = Some exported /\
      importKeyFromBase64 exported = Some imported /\
      raw imported = raw key /\
      url_safe exported = true /\
      String.length exported = 44%nat /\
      forallb base64_char (list_ascii_of_string exported) = true.
Proof.
  intros key Hlen Hext.
  exists (Base64.btoa (string_of_list_byte (raw key))).
  exists {| raw := raw key; extractable := false; usages := [Decrypt] |}.
  repeat split.
  - unfold exportKeyToBase64, subtle_exportKey. rewrite Hext. reflexivity.
  - unfold importKeyFromBase64. rewrite atob_btoa.
    rewrite list_byte_of_string_of_list_byte.
    unfold subtle_importKey. rewrite Hlen. reflexivity.
  - unfold url_safe. apply forallb_forall. intros c Hc.
    apply base64_char_url_safe.
    pose proof (btoa_base64_chars (string_of_list_byte (raw key))) as Hall.
    rewrite forallb_forall in Hall. apply Hall, Hc.
  - rewrite btoa_length. unfold string_of_list_byte.
    rewrite string_of_list_ascii_length, length_map, Hlen. reflexivity.
  - apply btoa_base64_chars.
Qed.

(** The key of thirty-two [0xff] bytes, as [generateEncryptionKey] makes it:
    exported as forty-two slashes, an 8 and an equals sign. *)
Lemma export_import_key_roundtrip_witness :
  generateEncryptionKey all_ones_key
    = Some {| raw := all_ones_key; extractable := true;
              usages := [Encrypt; Decrypt] |} /\
  exists exported imported,
    exportKeyToBase64 {| raw := all_ones_key; extractable := true;
                         usages := [Encrypt; Decrypt] |} = Some exported /\
    importKeyFromBase64 exported = Some imported /\
    raw imported = all_ones_key /\
    url_safe exported = true.
Proof.
  split; [reflexivity|].
  destruct (export_import_key_roundtrip
              {| raw := all_ones_key; extractable := true;
                 usages := [Encrypt; Decrypt] |} eq_refl eq_refl)
    as (exported & imported & H1 & H2 & H3 & H4 & _).
  exists exported, imported. repeat split; assumption.
Defined.

(* ===================================================================== *)
(** ** Properties of the redeem dispatch *)
(* ===================================================================== *)

Section RedeemProperties.
Import Redeem.
Local Open Scope string_scope.

(** The percentage shown for an on-chain commission is positive exactly
    when the commission is not zero. *)
Lemma affiliatePercentage_positive (bp : Z) :
  (0 <= bp)%Z ->
  (negb (Qle_bool (affiliatePercentage_of_field (Some bp)) 0) = true
   <-> bp <> 0%Z).
Proof.
  intros Hbp. rewrite negb_true_iff, <- not_true_iff_false, Qle_bool_iff.
  unfold affiliatePercentage_of_field, Qle, Qdiv, Qmult, Qinv, inject_Z.
  cbn. lia.
Qed.

Lemma string_neqb (a b : string) : negb (a =? b) = true <-> a <> b.
Proof. rewrite negb_true_iff. apply String.eqb_neq. Qed.

End RedeemProperties.

(** C9. The dispatch is not reached for every fetched listing state: the
    page turns the price into a double with [Number] before it splits the
    payment off the gas coin.  For the price [2^64 - 1], which the contract
    accepts, the double is [2^64], no [u64]; the transaction builder refuses
    the amount and nothing is submitted, where the property - no referrer
    being present - has the page submit plain [purchase]. *)
Lemma handlePurchase_top_price_not_submitted :
  Redeem.js_Number 18446744073709551615 = 18446744073709551616 /\
  Redeem.handlePurchase (Some sample_buyer) (Some top_price_info)
    (Redeem.parse_referrer None) true = Redeem.BuildRefused /\
  Redeem.BuildRefused
    <> Redeem.Submitted (Redeem.purchase "0x1" 18446744073709551615).
Proof.
  split; [vm_compute; reflexivity|].
  split; [vm_compute; reflexivity | discriminate].
Qed.

Lemma js_Number_exact (z : Z) :
  0 <= z < 2 ^ 53 -> Redeem.js_Number z = z.
Proof.
  intros [H0 H53]. unfold Redeem.js_Number.
  replace (Z.log2 z + 1 <=? 53) with true; [reflexivity|].
  symmetry. apply Z.leb_le.
  destruct (Z.eq_dec z 0) as [-> | Hz]; [cbn; lia|].
  assert (Z.log2 z < 53) by (apply Z.log2_lt_pow2; lia). lia.
Qed.

(** X22. In the redeem flow, with a connected wallet, a listing fetched from
    the chain (whose percentage comes from the on-chain commission [bp]),
    the referrer parsed from the link, and a price whose double is a [u64]
    value: [handlePurchase] submits [purchase_with_referral], naming that
    referrer, if and only if a referrer is present, differs from the buyer's
    address, differs from the listing's seller, and the commission is not
    zero; in every other case it submits plain [purchase].  Either way the
    payment is [Number(price)], which is the price itself below [2^53]. *)
Theorem redeem_dispatch :
  forall (currentAccount : Redeem.WalletAccount) (listing : Redeem.ListingInfo)
         (ref : option string) (bp : Z),
    0 <= bp ->
    Redeem.affiliatePercentage listing
      = Redeem.affiliatePercentage_of_field (Some bp) ->
    U64.in_range (Redeem.js_Number (Redeem.price listing)) ->
    let referrer := Redeem.parse_referrer ref in
    let amount := Redeem.js_Number (Redeem.price listing) in
    let submitted :=
      Redeem.handlePurchase (Some currentAccount) (Some listing) referrer true
    in
    (forall r,
       submitted = Redeem.Submitted
                     (Redeem.purchase_with_referral
                        (Redeem.id listing) amount r)
       <-> (referrer = Some r /\ r <> ""%string /\
            r <> Redeem.address currentAccount /\
            r <> Redeem.seller listing /\ bp <> 0)) /\
    (~ valid_referral referrer currentAccount listing bp ->
     submitted = Redeem.Submitted
                   (Redeem.purchase (Redeem.id listing) amount)) /\
    (0 <= Redeem.price listing < 2 ^ 53 -> amount = Redeem.price listing).
Proof.
  intros acct l ref bp Hbp Hpct Hamount referrer amount submitted.
  assert (Redeem.hasValidReferrer referrer acct l = true
          <-> valid_referral referrer acct l bp) as Hvalid.
  { unfold Redeem.hasValidReferrer, valid_referral.
    destruct referrer as [r|].
    - rewrite !andb_true_iff, !string_neqb, Hpct,
        (affiliatePercentage_positive bp Hbp).
      split.
      + intros [[[H1 H2] H3] H4]. exists r. auto.
      + intros (r' & [= <-] & H1 & H2 & H3 & H4). auto.
    - split; [discriminate | intros (r' & H & _); discriminate]. }
  assert (U64.in_rangeb amount = true) as Hin.
  { unfold U64.in_rangeb, U64.in_range in *. fold amount in Hamount.
    apply andb_true_iff. split; apply Z.leb_le; lia. }
  split; [|split; [|apply js_Number_exact]].
  - unfold submitted, Redeem.handlePurchase. cbn [negb]. fold amount.
    rewrite Hin. cbn [negb].
    destruct (Redeem.hasValidReferrer referrer acct l) eqn:Hv.
    + destruct (proj1 Hvalid eq_refl) as (r0 & Hr & H1 & H2 & H3 & H4).
      rewrite Hr. intros r. split.
      * intros [= <-]. auto.
      * intros ([= <-] & _). reflexivity.
    + intros r. split; [discriminate|].
      intros (Hr & H1 & H2 & H3 & H4).
      assert (false = true) by (apply Hvalid; exists r; auto).
      discriminate.
  - unfold submitted, Redeem.handlePurchase. cbn [negb]. fold amount.
    rewrite Hin. cbn [negb].
    destruct (Redeem.hasValidReferrer referrer acct l) eqn:Hv.
    + intros Hn. exfalso. apply Hn, Hvalid. reflexivity.
    + intros _. reflexivity.
Qed.

Lemma redeem_dispatch_witness :
  Redeem.handlePurchase (Some sample_buyer) (Some sample_info)
    (Redeem.parse_referrer (Some "0xc"%string)) true
  = Redeem.Submitted (Redeem.purchase_with_referral "0x1" 999 "0xc").
Proof.
  apply (proj1 (redeem_dispatch sample_buyer sample_info (Some "0xc"%string)
                  333 ltac:(discriminate) eq_refl
                  ltac:(split; discriminate))).
  repeat split; discriminate.
Defined.

(* ===================================================================== *)
(** ** Further properties of the listing protocol *)
(* ===================================================================== *)

Section PurchaseEffects.

Ltac run :=
  cbv beta iota zeta delta
    [purchase purchase_with_referral create_listing
     create_listing_with_affiliate deactivate_listing reactivate_listing
     update_affiliate_percentage coin_split public_transfer emit
     share_object object_new U64.mul U64.sub U64.div
     Tx.bind Tx.ret Tx.fail Tx.get Tx.modify Tx.assert].

Ltac split_ifs :=
  repeat match goal with
         | |- context [if ?b then _ else _] => destruct b eqn:?; cbv beta iota
         end.

(** What has to hold for [purchase_with_referral] to run to completion. *)
Lemma purchase_with_referral_success_inv l payment referrer sender s u s' :
  purchase_with_referral l payment referrer sender s = Ok u s' ->
  is_active l = true /\ price l <= value payment /\
  referrer <> sender /\ referrer <> seller l /\
  (0 < affiliate_percentage l ->
   price l * affiliate_percentage l <= U64.MAX).
Proof.
  run.
  destruct (is_active l); cbv beta iota; [|discriminate].
  destruct (price l <=? value payment) eqn:Hpay; cbv beta iota;
    [|discriminate].
  destruct (referrer =? sender) eqn:H1; cbv beta iota; [discriminate|].
  destruct (referrer =? seller l) eqn:H2; cbv beta iota; [discriminate|].
  intros Hrun. repeat split.
  - apply Z.leb_le, Hpay.
  - apply Z.eqb_neq, H1.
  - apply Z.eqb_neq, H2.
  - intros Hbp. apply Z.ltb_lt in Hbp. rewrite Hbp in Hrun.
    destruct (price l * affiliate_percentage l <=? U64.MAX) eqn:Hmul;
      [apply Z.leb_le, Hmul | discriminate].
Qed.

(** X1. A purchase entry point that fails has done nothing: every check, the
    fee arithmetic and the coin split come before the first transfer, so
    the state at the failure is the state at entry. *)
Theorem purchase_failure_is_clean :
  forall (l : Listing) (payment : Coin) (referrer sender : address)
         (s s' : TxState) (f : failure),
    (purchase l payment sender s = Fail f s' -> s' = s) /\
    (purchase_with_referral l payment referrer sender s = Fail f s' ->
     s' = s).
Proof.
  intros l payment referrer sender s s' f. split.
  - run. split_ifs; intros H; inversion H; reflexivity.
  - run. split_ifs; intros H; inversion H; reflexivity.
Qed.

(** X2. A referral purchase that succeeds hands out the submitted coin and
    nothing else: the new transfers add up to [payment.value], each goes to
    the referrer or to the seller, exactly one event is emitted and no
    object is shared. *)
Theorem purchase_with_referral_conserves_payment :
  forall (l : Listing) (payment : Coin) (referrer sender : address)
         (s s' : TxState) (u : unit),
    purchase_with_referral l payment referrer sender s = Ok u s' ->
    exists ts ev,
      transfers s' = transfers s ++ ts /\
      total ts = value payment /\
      (forall t, In t ts -> fst t = referrer \/ fst t = seller l) /\
      events s' = events s ++ [EvAffiliatePurchase ev] /\
      shared s' = shared s.
Proof.
  intros l payment referrer sender s s' u.
  run. split_ifs; intros H; inversion H; subst; clear H;
    cbn [transfers events shared].
  all: eexists; eexists; rewrite <- ?app_assoc;
    (split; [reflexivity|]);
    (split; [cbn; lia|]);
    (split; [|split; reflexivity]);
    intros t Ht; cbn in Ht;
    repeat (destruct Ht as [<- | Ht]; [cbn; auto|]); contradiction.
Qed.

(** 1500 submitted for a price of 999 at 333 bp: 33 to the referrer and
    1467 to the seller. *)
Lemma purchase_with_referral_conserves_payment_witness :
  exists ts ev,
    [(3, {| value := 33 |}); (1, {| value := 1467 |})] = [] ++ ts /\
    total ts = 1500 /\
    (forall t, In t ts -> fst t = 3 \/ fst t = 1) /\
    [EvAffiliatePurchase
       {| ape_listing_id := 0; ape_buyer := 2; ape_seller := 1;
          ape_referrer := 3; ape_price := 999;
          ape_affiliate_fee := 33; ape_seller_amount := 966 |}]
      = [] ++ [EvAffiliatePurchase ev] /\
    @nil Listing = [].
Proof.
  exact (purchase_with_referral_conserves_payment sample_listing
           {| value := 1500 |} 3 2 (tx_start 1)
           {| transfers := [(3, {| value := 33 |});
                            (1, {| value := 1467 |})];
              events := [EvAffiliatePurchase
                {| ape_listing_id := 0; ape_buyer := 2; ape_seller := 1;
                   ape_referrer := 3; ape_price := 999;
                   ape_affiliate_fee := 33; ape_seller_amount := 966 |}];
              shared := []; fresh := 1 |} tt eq_refl).
Defined.

(** X3. When the fee rounds down to zero ([price * affiliate_bp < 10000],
    a zero commission included) no coin is split off: a referral purchase
    that passes the checks gives the referrer nothing and hands the whole
    submitted coin to the seller; the event records a fee of 0. *)
Theorem purchase_with_referral_fee_rounds_to_zero :
  forall (l : Listing) (payment : Coin) (referrer sender : address)
         (s : TxState),
    0 <= price l -> 0 <= affiliate_percentage l ->
    price l * affiliate_percentage l < BASIS_POINTS ->
    is_active l = true -> price l <= value payment ->
    referrer <> sender -> referrer <> seller l ->
    purchase_with_referral l payment referrer sender s
      = Ok tt {| transfers := transfers s ++ [(seller l, payment)];
                 events := events s ++
                   [EvAffiliatePurchase
                      {| ape_listing_id := id l; ape_buyer := sender;
                         ape_seller := seller l; ape_referrer := referrer;
                         ape_price := price l; ape_affiliate_fee := 0;
                         ape_seller_amount := price l |}];
                 shared := shared s; fresh := fresh s |}.
Proof.
  intros l payment referrer sender s Hp Hbp Hsmall Hact Hpay Hr1 Hr2.
  assert (price l * affiliate_percentage l / BASIS_POINTS = 0) as Hfee.
  { apply Z.div_small. split; [apply Z.mul_nonneg_nonneg; assumption|].
    exact Hsmall. }
  run. rewrite Hact, (zleb_true _ _ Hpay), (zneqb_true _ _ Hr1),
    (zneqb_true _ _ Hr2). cbv beta iota.
  destruct (0 <? affiliate_percentage l); cbv beta iota.
  - rewrite (zleb_true (price l * affiliate_percentage l) U64.MAX)
      by (unfold BASIS_POINTS, U64.MAX in *; lia).
    change (BASIS_POINTS =? 0) with false. cbv beta iota. rewrite Hfee.
    rewrite (zleb_true 0 (price l) Hp). cbv beta iota.
    change (0 <? 0) with false. cbv beta iota. cbn [transfers events].
    rewrite Z.sub_0_r. reflexivity.
  - rewrite (zleb_true 0 (price l) Hp). cbv beta iota.
    change (0 <? 0) with false. cbv beta iota. cbn [transfers events].
    rewrite Z.sub_0_r. reflexivity.
Qed.

(** A price of 9 at 10%: the fee is [floor (9000 / 10000) = 0]. *)
Lemma purchase_with_referral_fee_rounds_to_zero_witness :
  purchase_with_referral tiny_listing {| value := 9 |} 3 2 (tx_start 1)
    = Ok tt {| transfers := [(1, {| value := 9 |})];
               events := [EvAffiliatePurchase
                 {| ape_listing_id := 0; ape_buyer := 2; ape_seller := 1;
                    ape_referrer := 3; ape_price := 9;
                    ape_affiliate_fee := 0; ape_seller_amount := 9 |}];
               shared := []; fresh := 1 |}.
Proof.
  apply (purchase_with_referral_fee_rounds_to_zero tiny_listing
           {| value := 9 |} 3 2 (tx_start 1));
    vm_compute; congruence.
Defined.

(** X4. A listing whose [price * affiliate_bp] exceeds [2^64 - 1] cannot be
    bought through a referral - the call passes its checks and stops on the
    arithmetic error - while a plain [purchase] of the same listing with
    the same coin succeeds. *)
Theorem costly_listing_only_sells_plainly :
  forall (l : Listing) (payment : Coin) (referrer sender : address)
         (s : TxState),
    0 < affiliate_percentage l ->
    U64.MAX < price l * affiliate_percentage l ->
    is_active l = true -> price l <= value payment ->
    referrer <> sender -> referrer <> seller l ->
    purchase_with_referral l payment referrer sender s
      = Fail ArithmeticError s /\
    exists s', purchase l payment sender s = Ok tt s' /\
               transfers s' = transfers s ++ [(seller l, payment)].
Proof.
  intros l payment referrer sender s Hbp Hbig Hact Hpay Hr1 Hr2. split.
  - run. rewrite Hact, (zleb_true _ _ Hpay), (zneqb_true _ _ Hr1),
      (zneqb_true _ _ Hr2). cbv beta iota.
    rewrite (proj2 (Z.ltb_lt _ _) Hbp). cbv beta iota.
    rewrite (zleb_false _ _ Hbig). reflexivity.
  - eexists. run. rewrite Hact, (zleb_true _ _ Hpay). cbv beta iota.
    cbn [transfers]. split; reflexivity.
Qed.

Lemma costly_listing_only_sells_plainly_witness :
  purchase_with_referral costly_listing {| value := 20000000000000000 |}
    3 2 (tx_start 1) = Fail ArithmeticError (tx_start 1) /\
  exists s', purchase costly_listing {| value := 20000000000000000 |} 2
               (tx_start 1) = Ok tt s' /\
             transfers s'
               = transfers (tx_start 1)
                 ++ [(seller costly_listing,
                      {| value := 20000000000000000 |})].
Proof.
  apply (costly_listing_only_sells_plainly costly_listing
           {| value := 20000000000000000 |} 3 2 (tx_start 1));
    vm_compute; congruence.
Defined.

End PurchaseEffects.

(** The failing branch, shown on an underpaid purchase. *)
Lemma purchase_failure_is_clean_witness :
  purchase sample_listing {| value := 5 |} 2 (tx_start 1)
    = Fail (Aborted E_INSUFFICIENT_PAYMENT) (tx_start 1) /\
  tx_start 1 = tx_start 1.
Proof.
  split; [reflexivity|].
  exact (proj1 (purchase_failure_is_clean sample_listing {| value := 5 |}
                  3 2 (tx_start 1) (tx_start 1)
                  (Aborted E_INSUFFICIENT_PAYMENT)) eq_refl).
Defined.

Section LedgerProperties.

(** Prices of a reachable ledger are [u64] values. *)
Lemma reachable_price_in_range L :
  reachable L ->
  forall lid l, objects L !! lid = Some l -> U64.in_range (price l).
Proof.
  induction 1 as [|L sender c Hreach IH Hwf HP]; intros lid l Hl.
  - cbn in Hl. rewrite lookup_empty in Hl. discriminate.
  - apply execute_lookup in Hl
      as [(l0 & Hl0 & Hst & _) | (_ & _ & Hc)].
    + destruct Hst as (_ & _ & -> & _). exact (IH _ _ Hl0).
    + destruct c; try contradiction.
      * subst l. exact Hwf.
      * destruct Hc as [_ ->]. exact (proj1 Hwf).
Qed.

(** A caller who is not the seller is turned away by the three seller-only
    entry points. *)
Lemma not_seller_rejected l sender bp :
  sender <> seller l ->
  deactivate_listing sender l = Fail (Aborted 1) l /\
  reactivate_listing sender l = Fail (Aborted 1) l /\
  update_affiliate_percentage bp sender l = Fail (Aborted 1) l.
Proof.
  intros Hne. apply Z.eqb_neq in Hne.
  unfold deactivate_listing, reactivate_listing, update_affiliate_percentage,
    Tx.bind, Tx.get, Tx.assert.
  rewrite Hne. repeat split.
Qed.

(** X5. On a reachable ledger a successful referral purchase pays the
    referrer [floor (price * affiliate_bp / 10000)], which is at most a
    tenth of the price, and pays the seller the rest of the submitted coin,
    which is at least nine tenths of the price. *)
Theorem referral_commission_capped :
  forall (L L' : State) (lid : ID) (l : Listing) (payment : Coin)
         (referrer buyer : address),
    reachable L ->
    objects L !! lid = Some l ->
    execute buyer (PurchaseWithReferral lid payment referrer) L
      = (L', Success) ->
    let fee := price l * affiliate_percentage l / BASIS_POINTS in
    received referrer (paid L') = received referrer (paid L) + fee /\
    received (seller l) (paid L')
      = received (seller l) (paid L) + (value payment - fee) /\
    0 <= 10 * fee <= price l /\
    9 * price l <= 10 * (value payment - fee).
Proof.
  intros L L' lid l payment referrer buyer Hreach Hl Hexec fee.
  pose proof (reachable_commission_in_range L Hreach lid l Hl) as Hbp.
  pose proof (reachable_price_in_range L Hreach lid l Hl) as [Hp _].
  cbn [execute] in Hexec. unfold with_listing, run_tx in Hexec.
  rewrite Hl in Hexec.
  destruct (purchase_with_referral l payment referrer buyer
              (tx_start (next_id L))) as [u s'|f s'] eqn:Hrun;
    [|discriminate].
  injection Hexec as <-.
  destruct (purchase_with_referral_success_inv _ _ _ _ _ _ _ Hrun)
    as (Hact & Hpay & Hr1 & Hr2 & Hmul).
  assert (price l * affiliate_percentage l <= U64.MAX) as Hmul'.
  { destruct (Z.eq_dec (affiliate_percentage l) 0) as [-> | Hnz].
    - rewrite Z.mul_0_r. unfold U64.MAX. lia.
    - apply Hmul. lia. }
  assert (0 <= affiliate_percentage l <= BASIS_POINTS) as Hbp'
      by (unfold MAX_AFFILIATE_PERCENTAGE, BASIS_POINTS in *; lia).
  rewrite (purchase_with_referral_ok l payment referrer buyer _
             Hp Hbp' Hmul' Hact Hpay Hr1 Hr2) in Hrun.
  cbv zeta in Hrun. fold fee in Hrun. injection Hrun as Hs. subst s'.
  cbn [commit paid transfers tx_start app].
  assert (0 <= 10 * fee <= price l) as Hcap.
  { unfold fee, BASIS_POINTS, MAX_AFFILIATE_PERCENTAGE in *.
    assert (0 <= price l * affiliate_percentage l)
      by (apply Z.mul_nonneg_nonneg; lia).
    assert (price l * affiliate_percentage l <= price l * 1000)
      by (apply Z.mul_le_mono_nonneg_l; lia).
    pose proof (Z.mul_div_le (price l * affiliate_percentage l) 10000
                  ltac:(lia)).
    pose proof (Z.div_pos (price l * affiliate_percentage l) 10000
                  ltac:(lia) ltac:(lia)).
    lia. }
  assert ((referrer =? seller l) = false) as E1 by (apply Z.eqb_neq, Hr2).
  assert ((seller l =? referrer) = false) as E2
      by (apply Z.eqb_neq; congruence).
  rewrite !received_app.
  destruct (0 <? fee) eqn:Hf;
    cbn [app received fold_right fst snd value];
    rewrite ?Z.eqb_refl, ?E1, ?E2.
  - repeat split; lia.
  - apply Z.ltb_ge in Hf. repeat split; lia.
Qed.

Lemma shop_reachable : reachable shop.
Proof.
  apply reach_step; [apply reach_genesis | | exact I].
  cbn. unfold U64.in_range, U64.MAX. lia.
Qed.

Lemma shop_lookup : objects shop !! 0 = Some shop_listing.
Proof. cbn. unfold publish. cbn [id]. apply lookup_insert_eq. Qed.

Lemma shop_sale :
  execute 2 (PurchaseWithReferral 0 {| value := 1500 |} 3) shop
  = (fst (execute 2 (PurchaseWithReferral 0 {| value := 1500 |} 3) shop),
     Success).
Proof.
  cbn [execute]. unfold with_listing. rewrite shop_lookup. reflexivity.
Qed.

Lemma referral_commission_capped_witness :
  received 3
    (paid (fst (execute 2 (PurchaseWithReferral 0 {| value := 1500 |} 3)
                  shop))) = 33 /\
  received 1
    (paid (fst (execute 2 (PurchaseWithReferral 0 {| value := 1500 |} 3)
                  shop))) = 1467.
Proof.
  destruct (referral_commission_capped shop _ 0 shop_listing
              {| value := 1500 |} 3 2 shop_reachable shop_lookup shop_sale)
    as (H1 & H2 & _).
  split; [exact H1 | exact H2].
Defined.

(** X6. Only the seller can change a listing: whatever call anyone else
    sends - a creation, a purchase, or one of the seller-only entry points,
    aimed at this listing or another - the listing found under the same
    identity afterwards is the same, field for field. *)
Theorem only_seller_changes_listing :
  forall (L : State) (lid : ID) (l : Listing) (sender : address) (c : Call),
    reachable L ->
    objects L !! lid = Some l ->
    sender <> seller l ->
    objects (fst (execute sender c L)) !! lid = Some l.
Proof.
  intros L lid l sender c Hreach Hl Hne.
  pose proof (reachable_ids_below_next _ _ Hreach _ _ Hl) as Hlt.
  assert (forall (m : M Listing unit) k,
    m l = Fail (Aborted 1) l ->
    objects (fst (run_mut L k m)) !! lid = Some l) as Hmut.
  { intros m k Hm. unfold run_mut, with_listing.
    destruct (objects L !! k) as [l0|] eqn:Hk; [|exact Hl].
    destruct (m l0) as [u l1|f l1] eqn:Hrun; [|exact Hl].
    cbn. destruct (decide (k = lid)) as [-> | Hk'].
    - rewrite Hl in Hk. injection Hk as <-. rewrite Hm in Hrun.
      discriminate.
    - rewrite lookup_insert_ne by exact Hk'. exact Hl. }
  destruct (not_seller_rejected l sender 0 Hne) as (Hd & Hr & _).
  destruct c as [p b n d | p b n d bp | k pay | k pay r | k | k | k bp];
    cbn [execute]; unfold create_listing, with_listing, run_tx;
    try rewrite create_listing_with_affiliate_run.
  - cbn. unfold publish. cbn [id new_listing].
    rewrite lookup_insert_ne by lia. exact Hl.
  - destruct (bp <=? MAX_AFFILIATE_PERCENTAGE); cbn; [|exact Hl].
    unfold publish. cbn [id new_listing].
    rewrite lookup_insert_ne by lia. exact Hl.
  - destruct (objects L !! k) as [l0|]; [|exact Hl].
    destruct (purchase l0 pay sender (tx_start (next_id L)))
      as [u s'|f s'] eqn:Hrun; [|exact Hl].
    apply purchase_shares_nothing in Hrun as [Hsh _].
    cbn. rewrite Hsh. exact Hl.
  - destruct (objects L !! k) as [l0|]; [|exact Hl].
    destruct (purchase_with_referral l0 pay r sender (tx_start (next_id L)))
      as [u s'|f s'] eqn:Hrun; [|exact Hl].
    apply purchase_with_referral_shares_nothing in Hrun as [Hsh _].
    cbn. rewrite Hsh. exact Hl.
  - apply Hmut, Hd.
  - apply Hmut, Hr.
  - apply Hmut. apply (not_seller_rejected l sender bp Hne).
Qed.

Lemma only_seller_changes_listing_witness :
  objects (fst (execute 2 (UpdateAffiliatePercentage 0 0) shop)) !! 0
    = Some shop_listing /\
  objects (fst (execute 2 (DeactivateListing 0) shop)) !! 0
    = Some shop_listing.
Proof.
  split.
  - apply (only_seller_changes_listing shop 0 shop_listing 2
             (UpdateAffiliatePercentage 0 0) shop_reachable shop_lookup).
    discriminate.
  - apply (only_seller_changes_listing shop 0 shop_listing 2
             (DeactivateListing 0) shop_reachable shop_lookup).
    discriminate.
Defined.

Lemma run_calls_keeps cs :
  forall L lid l,
    objects L !! lid = Some l -> lid < next_id L ->
    exists l', objects (run_calls cs L) !! lid = Some l' /\ same_static l l'.
Proof.
  induction cs as [|[sender c] cs IH]; intros L lid l Hl Hlt.
  - exists l. split; [exact Hl | apply same_static_refl].
  - destruct (execute_keeps sender c L lid l Hl ltac:(lia))
      as (l1 & Hl1 & Hs1).
    pose proof (execute_next_id_le sender c L) as Hmono.
    destruct (IH (fst (execute sender c L)) lid l1 Hl1 ltac:(lia))
      as (l2 & Hl2 & Hs2).
    exists l2. split; [exact Hl2|].
    unfold same_static in *. intuition congruence.
Qed.

(** X7. A listing is never deleted and never re-sold under another name:
    after any sequence of calls by any senders it is still found under its
    identity, with the same [id], [seller], [price], [blob_id], [name] and
    [description]. *)
Theorem listing_survives_any_calls :
  forall (L : State) (lid : ID) (l : Listing) (cs : list (address * Call)),
    reachable L ->
    objects L !! lid = Some l ->
    exists l',
      objects (run_calls cs L) !! lid = Some l' /\
      id l' = id l /\ seller l' = seller l /\ price l' = price l /\
      blob_id l' = blob_id l /\ name l' = name l /\
      description l' = description l.
Proof.
  intros L lid l cs Hreach Hl.
  apply run_calls_keeps; [exact Hl|].
  exact (reachable_ids_below_next _ _ Hreach _ _ Hl).
Qed.

Lemma listing_survives_any_calls_witness :
  exists l',
    objects (run_calls [(1, DeactivateListing 0);
                        (2, CreateListing 5 [99] [110] [100]);
                        (1, UpdateAffiliatePercentage 0 1000)] shop) !! 0
      = Some l' /\
    id l' = 0 /\ seller l' = 1 /\ price l' = 999 /\
    blob_id l' = [98] /\ name l' = [110] /\ description l' = [100].
Proof.
  exact (listing_survives_any_calls shop 0 shop_listing _
           shop_reachable shop_lookup).
Defined.

(** X8. The activation switch, end to end: once the seller has deactivated
    a listing, every [purchase] and [purchase_with_referral] on it fails
    with [E_LISTING_NOT_ACTIVE] and leaves the ledger alone; when the seller
    reactivates it the listing is active again with every other field as
    before, and for a listing that was active the ledger is back to what it
    was. *)
Theorem deactivate_blocks_until_reactivated :
  forall (L : State) (lid : ID) (l : Listing),
    objects L !! lid = Some l ->
    let off := fst (execute (seller l) (DeactivateListing lid) L) in
    let on := fst (execute (seller l) (ReactivateListing lid) off) in
    (forall buyer payment referrer,
       execute buyer (Purchase lid payment) off
         = (off, Failure (Aborted E_LISTING_NOT_ACTIVE)) /\
       execute buyer (PurchaseWithReferral lid payment referrer) off
         = (off, Failure (Aborted E_LISTING_NOT_ACTIVE))) /\
    objects on !! lid
      = Some {| id := id l; seller := seller l; price := price l;
                blob_id := blob_id l; name := name l;
                description := description l; is_active := true;
                affiliate_percentage := affiliate_percentage l |} /\
    (is_active l = true -> on = L).
Proof.
  intros L lid l Hl off on.
  set (l_off := {| id := id l; seller := seller l; price := price l;
                   blob_id := blob_id l; name := name l;
                   description := description l; is_active := false;
                   affiliate_percentage := affiliate_percentage l |}).
  assert (off = {| objects := <[lid := l_off]> (objects L);
                   next_id := next_id L; paid := paid L; log := log L |})
    as Hoff.
  { unfold off. cbn [execute]. unfold run_mut, with_listing. rewrite Hl.
    unfold deactivate_listing, Tx.bind, Tx.get, Tx.assert, Tx.modify.
    rewrite Z.eqb_refl. reflexivity. }
  assert (objects off !! lid = Some l_off) as Hl_off
      by (rewrite Hoff; cbn; apply lookup_insert_eq).
  repeat apply conj.
  - intros buyer payment referrer.
    cbn [execute]. unfold with_listing, run_tx. rewrite Hl_off.
    unfold purchase, purchase_with_referral, Tx.bind, Tx.assert.
    cbn [is_active l_off]. split; reflexivity.
  - unfold on. cbn [execute]. unfold run_mut, with_listing. rewrite Hl_off.
    unfold reactivate_listing, Tx.bind, Tx.get, Tx.assert, Tx.modify.
    cbn [seller l_off]. rewrite Z.eqb_refl. cbn. apply lookup_insert_eq.
  - intros Hact. unfold on. cbn [execute]. unfold run_mut, with_listing.
    rewrite Hl_off.
    unfold reactivate_listing, Tx.bind, Tx.get, Tx.assert, Tx.modify.
    cbn [seller l_off]. rewrite Z.eqb_refl. cbn.
    rewrite Hoff. cbn. rewrite insert_insert_eq.
    destruct L as [objs nid pd lg]. cbn in *. f_equal.
    apply insert_id. rewrite Hl. f_equal.
    destruct l; cbn in *. subst. reflexivity.
Qed.

Lemma deactivate_blocks_until_reactivated_witness :
  execute 2 (Purchase 0 {| value := 999 |})
    (fst (execute 1 (DeactivateListing 0) shop))
  = (fst (execute 1 (DeactivateListing 0) shop),
     Failure (Aborted E_LISTING_NOT_ACTIVE)) /\
  fst (execute 1 (ReactivateListing 0)
         (fst (execute 1 (DeactivateListing 0) shop))) = shop.
Proof.
  destruct (deactivate_blocks_until_reactivated shop 0 shop_listing
              shop_lookup) as (H1 & _ & H3).
  split.
  - exact (proj1 (H1 2 {| value := 999 |} 3)).
  - exact (H3 eq_refl).
Defined.

(** X9. [create_listing] never fails: on a reachable ledger it shares one
    new, active listing with commission 0 and the caller as seller, under an
    identity no listing had before; every other listing, the transfers and
    the event log are untouched. *)
Theorem create_listing_adds_fresh_listing :
  forall (L : State) (sender : address) (p : Z) (b n d : list Z),
    reachable L ->
    snd (execute sender (CreateListing p b n d) L) = Success /\
    objects L !! next_id L = None /\
    objects (fst (execute sender (CreateListing p b n d) L)) !! next_id L
      = Some {| id := next_id L; seller := sender; price := p;
                blob_id := b; name := n; description := d;
                is_active := true; affiliate_percentage := 0 |} /\
    (forall lid, lid <> next_id L ->
       objects (fst (execute sender (CreateListing p b n d) L)) !! lid
         = objects L !! lid) /\
    next_id (fst (execute sender (CreateListing p b n d) L))
      = next_id L + 1 /\
    paid (fst (execute sender (CreateListing p b n d) L)) = paid L /\
    log (fst (execute sender (CreateListing p b n d) L)) = log L.
Proof.
  intros L sender p b n d Hreach.
  cbn [execute]. unfold create_listing, run_tx.
  rewrite create_listing_with_affiliate_run. cbn.
  unfold publish. cbn [id new_listing]. rewrite !app_nil_r.
  repeat apply conj; try reflexivity.
  - destruct (objects L !! next_id L) as [l|] eqn:Hl; [|reflexivity].
    pose proof (reachable_ids_below_next _ _ Hreach _ _ Hl). lia.
  - apply lookup_insert_eq.
  - intros lid Hne. apply lookup_insert_ne. congruence.
Qed.

Lemma create_listing_adds_fresh_listing_witness :
  snd (execute 2 (CreateListing 0 [] [] []) shop) = Success /\
  objects shop !! next_id shop = None.
Proof.
  destruct (create_listing_adds_fresh_listing shop 2 0 [] [] []
              shop_reachable) as (H1 & H2 & _).
  split; assumption.
Defined.

End LedgerProperties.

(* ===================================================================== *)
(** ** Further properties of the encryption envelope *)
(* ===================================================================== *)

Section EnvelopeProperties.
Import Base64 FileCrypto.

(** X11. Unframing never fails and never loses a byte: for every payload,
    short ones included, the IV part followed by the data part is the
    payload again; the IV part has twelve bytes exactly when the payload
    has at least twelve, and is the whole payload otherwise. *)
Theorem parseEncryptedPayload_splits :
  forall payload : list Byte.byte,
    iv (parseEncryptedPayload payload)
      ++ encryptedData (parseEncryptedPayload payload) = payload /\
    length (iv (parseEncryptedPayload payload))
      = Nat.min 12 (length payload) /\
    length (encryptedData (parseEncryptedPayload payload))
      = (length payload - 12)%nat.
Proof.
  intros payload. rewrite parseEncryptedPayload_app. cbn [iv encryptedData].
  split; [apply firstn_skipn|].
  split; [apply length_firstn | apply length_skipn].
Qed.

(** What [importKeyFromBase64] hands back. *)
Lemma importKeyFromBase64_inv s key :
  importKeyFromBase64 s = Some key ->
  extractable key = false /\ usages key = [Decrypt] /\
  (length (raw key) = 16 \/ length (raw key) = 24
   \/ length (raw key) = 32)%nat.
Proof.
  unfold importKeyFromBase64, subtle_importKey.
  destruct (atob s) as [bin|]; [|discriminate].
  destruct ((length (list_byte_of_string bin) =? 16)
            || (length (list_byte_of_string bin) =? 24)
            || (length (list_byte_of_string bin) =? 32))%nat eqn:Hlen;
    [|discriminate].
  intros [= <-]. cbn [extractable usages raw].
  split; [reflexivity|]. split; [reflexivity|].
  apply orb_true_iff in Hlen as [Hlen | Hlen];
    [apply orb_true_iff in Hlen as [Hlen | Hlen]|];
    apply Nat.eqb_eq in Hlen; auto.
Qed.

(** X12. A key read from a link is for decryption only: whatever string
    [importKeyFromBase64] accepts, the key it returns has 128, 192 or 256
    bits, carries the single usage [decrypt], is not extractable - so
    [exportKeyToBase64] refuses it - and [encryptFile] refuses it too. *)
Theorem imported_key_is_decrypt_only :
  forall (s : string) (key : CryptoKey) cipher entropy (file : File),
    importKeyFromBase64 s = Some key ->
    (length (raw key) = 16 \/ length (raw key) = 24
     \/ length (raw key) = 32)%nat /\
    usages key = [Decrypt] /\
    exportKeyToBase64 key = None /\
    encryptFile cipher entropy file key = None.
Proof.
  intros s key cipher entropy file Himp.
  destruct (importKeyFromBase64_inv s key Himp) as (Hext & Hus & Hlen).
  repeat split.
  - exact Hlen.
  - exact Hus.
  - unfold exportKeyToBase64, subtle_exportKey. rewrite Hext. reflexivity.
  - unfold encryptFile, has_usage. rewrite Hus. reflexivity.
Qed.

Lemma imported_key_is_decrypt_only_witness :
  exportKeyToBase64
    {| raw := all_ones_key; extractable := false; usages := [Decrypt] |}
    = None.
Proof.
  refine (proj1 (proj2 (proj2
            (imported_key_is_decrypt_only
               "//////////////////////////////////////////8="
               {| raw := all_ones_key; extractable := false;
                  usages := [Decrypt] |}
               plain_cipher (fun _ => Byte.x00) sample_file _)))).
  vm_compute. reflexivity.
Defined.

Lemma importKeyFromBase64_btoa (bytes : list Byte.byte) :
  importKeyFromBase64 (btoa (string_of_list_byte bytes))
  = if ((length bytes =? 16) || (length bytes =? 24)
        || (length bytes =? 32))%nat
    then Some {| raw := bytes; extractable := false; usages := [Decrypt] |}
    else None.
Proof.
  unfold importKeyFromBase64.
  rewrite atob_btoa, list_byte_of_string_of_list_byte. reflexivity.
Qed.

(** X13. Serialising a key of any accepted size: for every exportable key,
    importing its exported string yields a key with exactly the same bytes
    when there are 16, 24 or 32 of them, and fails for every other
    length. *)
Theorem import_of_exported_key :
  forall key : CryptoKey,
    extractable key = true ->
    exists exported,
      exportKeyToBase64 key = Some exported /\
      importKeyFromBase64 exported
      = if ((length (raw key) =? 16) || (length (raw key) =? 24)
            || (length (raw key) =? 32))%nat
        then Some {| raw := raw key; extractable := false;
                     usages := [Decrypt] |}
        else None.
Proof.
  intros key Hext. exists (btoa (string_of_list_byte (raw key))).
  split; [|apply importKeyFromBase64_btoa].
  unfold exportKeyToBase64, subtle_exportKey. rewrite Hext. reflexivity.
Qed.

(** A 128-bit key comes back; a 5-byte one is refused. *)
Lemma import_of_exported_key_witness :
  (exists exported,
     exportKeyToBase64 {| raw := repeat Byte.x01 16; extractable := true;
                          usages := [Encrypt; Decrypt] |} = Some exported /\
     importKeyFromBase64 exported
     = Some {| raw := repeat Byte.x01 16; extractable := false;
               usages := [Decrypt] |}) /\
  (exists exported,
     exportKeyToBase64 {| raw := repeat Byte.x01 5; extractable := true;
                          usages := [Encrypt; Decrypt] |} = Some exported /\
     importKeyFromBase64 exported = None).
Proof.
  split.
  - exact (import_of_exported_key
             {| raw := repeat Byte.x01 16; extractable := true;
                usages := [Encrypt; Decrypt] |} eq_refl).
  - exact (import_of_exported_key
             {| raw := repeat Byte.x01 5; extractable := true;
                usages := [Encrypt; Decrypt] |} eq_refl).
Defined.

(** The IV drawn by [encryptFile] has twelve bytes. *)
Lemma getRandomValues_length n entropy :
  length (getRandomValues n entropy) = n.
Proof. unfold getRandomValues. rewrite length_map. apply length_seq. Qed.

Lemma encryptFile_then_frame cipher (entropy : nat -> Byte.byte)
    (file : File) (key : CryptoKey) :
  has_usage Encrypt key = true ->
  exists e payload,
    encryptFile cipher entropy file key = Some e /\
    length (fileIv e) = 12%nat /\
    encryptedBlob e = cipher (raw key) (fileIv e) (content file) /\
    createEncryptedPayload (encryptedBlob e) (fileIv e) = Some payload /\
    length payload = (12 + length (encryptedBlob e))%nat /\
    parseEncryptedPayload payload
    = {| iv := fileIv e; encryptedData := encryptedBlob e |}.
Proof.
  intros Huse.
  unfold encryptFile. rewrite Huse.
  eexists. eexists. split; [reflexivity|]. cbn [fileIv encryptedBlob].
  pose proof (getRandomValues_length 12 entropy) as Hiv.
  split; [exact Hiv|]. split; [reflexivity|].
  split; [apply createEncryptedPayload_app|].
  split; [rewrite length_app, Hiv; reflexivity|].
  rewrite parseEncryptedPayload_app. reflexivity.
Qed.

(** X14. What the publish flow stores always unframes to what was
    encrypted: for every cipher, file and key allowed to encrypt,
    [encryptFile] draws a twelve-byte IV, [createEncryptedPayload] makes a
    payload twelve bytes longer than the ciphertext, and
    [parseEncryptedPayload] returns that IV and that ciphertext. *)
Theorem published_payload_unframes :
  forall cipher (entropy : nat -> Byte.byte) (file : File) (key : CryptoKey),
    has_usage Encrypt key = true ->
    exists e payload,
      encryptFile cipher entropy file key = Some e /\
      length (fileIv e) = 12%nat /\
      encryptedBlob e = cipher (raw key) (fileIv e) (content file) /\
      createEncryptedPayload (encryptedBlob e) (fileIv e) = Some payload /\
      length payload = (12 + length (encryptedBlob e))%nat /\
      parseEncryptedPayload payload
        = {| iv := fileIv e; encryptedData := encryptedBlob e |}.
Proof. intros. apply encryptFile_then_frame. assumption. Qed.

Lemma published_payload_unframes_witness :
  exists e payload,
    encryptFile plain_cipher (fun _ => Byte.x07) sample_file sample_key
      = Some e /\
    createEncryptedPayload (encryptedBlob e) (fileIv e) = Some payload /\
    parseEncryptedPayload payload
      = {| iv := fileIv e; encryptedData := encryptedBlob e |}.
Proof.
  destruct (published_payload_unframes plain_cipher (fun _ => Byte.x07)
              sample_file sample_key eq_refl)
    as (e & payload & H1 & _ & _ & H4 & _ & H6).
  exists e, payload. repeat split; assumption.
Defined.

(** X15. Seller to buyer, through the functions of [crypto-utils.ts]: with
    a cipher whose decryption undoes its encryption, a file encrypted under
    an exportable 256-bit key, framed, unframed and decrypted under the key
    re-imported from its exported string comes back with the same content,
    name and type. *)
Theorem encrypt_frame_export_roundtrip :
  forall cipher decipher (entropy : nat -> Byte.byte) (file : File)
         (key : CryptoKey),
    (forall k i d, decipher k i (cipher k i d) = Some d) ->
    has_usage Encrypt key = true ->
    extractable key = true ->
    length (raw key) = 32%nat ->
    exists e payload exported imported,
      encryptFile cipher entropy file key = Some e /\
      createEncryptedPayload (encryptedBlob e) (fileIv e) = Some payload /\
      exportKeyToBase64 key = Some exported /\
      importKeyFromBase64 exported = Some imported /\
      decryptFile decipher
        (encryptedData (parseEncryptedPayload payload)) imported
        (iv (parseEncryptedPayload payload))
        (originalName e) (originalType e) = Some file.
Proof.
  intros cipher decipher entropy file key Hinv Huse Hext Hlen.
  destruct (encryptFile_then_frame cipher entropy file key Huse)
    as (e & payload & He & _ & Hblob & Hpay & _ & Hparse).
  exists e, payload, (btoa (string_of_list_byte (raw key))),
    {| raw := raw key; extractable := false; usages := [Decrypt] |}.
  split; [exact He|]. split; [exact Hpay|].
  split; [unfold exportKeyToBase64, subtle_exportKey; rewrite Hext;
          reflexivity|].
  split; [rewrite importKeyFromBase64_btoa, Hlen; reflexivity|].
  rewrite Hparse. cbn [iv encryptedData].
  unfold decryptFile. cbn [has_usage usages existsb orb raw].
  rewrite Hblob, Hinv.
  unfold encryptFile in He. rewrite Huse in He. injection He as <-.
  cbn [originalName originalType]. destruct file; reflexivity.
Qed.

Lemma encrypt_frame_export_roundtrip_witness :
  exists e payload exported imported,
    encryptFile plain_cipher (fun _ => Byte.x07) sample_file sample_key
      = Some e /\
    createEncryptedPayload (encryptedBlob e) (fileIv e) = Some payload /\
    exportKeyToBase64 sample_key = Some exported /\
    importKeyFromBase64 exported = Some imported /\
    decryptFile plain_decipher
      (encryptedData (parseEncryptedPayload payload)) imported
      (iv (parseEncryptedPayload payload))
      (originalName e) (originalType e) = Some sample_file.
Proof.
  apply (encrypt_frame_export_roundtrip plain_cipher plain_decipher
           (fun _ => Byte.x07) sample_file sample_key);
    reflexivity.
Defined.

End EnvelopeProperties.

(* ===================================================================== *)
(** ** Properties of the format checks, the upload and the publish page *)
(* ===================================================================== *)

Section FormatProperties.
Import Formats.

Lemma hex_digits_of_byte (b : Byte.byte) :
  is_hex (hex_digit (Byte.to_N b / 16)) = true /\
  is_hex (hex_digit (Byte.to_N b mod 16)) = true /\
  is_upper_hex (hex_digit (Byte.to_N b / 16)) = false /\
  is_upper_hex (hex_digit (Byte.to_N b mod 16)) = false.
Proof. destruct b; vm_compute; auto. Qed.

Lemma bytesToHex_chars bytes :
  list_ascii_of_string (bytesToHex bytes)
  = flat_map (fun b => [hex_digit (Byte.to_N b / 16);
                        hex_digit (Byte.to_N b mod 16)]) bytes.
Proof. apply list_ascii_of_string_of_list_ascii. Qed.

Lemma bytesToHex_length bytes :
  String.length (bytesToHex bytes) = (2 * length bytes)%nat.
Proof.
  unfold bytesToHex. rewrite string_of_list_ascii_length.
  induction bytes as [|b bytes IH]; cbn [flat_map app length]; lia.
Qed.

Lemma bytesToHex_hex bytes :
  forallb is_hex (list_ascii_of_string (bytesToHex bytes)) = true.
Proof.
  rewrite bytesToHex_chars.
  induction bytes as [|b bytes IH]; cbn [flat_map app forallb];
    [reflexivity|].
  destruct (hex_digits_of_byte b) as (-> & -> & _). exact IH.
Qed.

Lemma bytesToHex_valid_salt bytes :
  isValidMasterSalt (bytesToHex bytes) = (length bytes =? 32)%nat.
Proof.
  unfold isValidMasterSalt.
  rewrite bytesToHex_hex, andb_true_r, bytesToHex_length.
  destruct (Nat.eqb_spec (length bytes) 32) as [-> | Hne]; [reflexivity|].
  apply Nat.eqb_neq. lia.
Qed.

(** X16. [bytesToHex] writes 64 hexadecimal digits for 32 bytes and never
    anything else, so a salt from [generateMasterSalt] always passes
    [isValidMasterSalt], and the hex of any other number of bytes never
    does. *)
Theorem generated_salt_is_valid :
  forall (entropy : nat -> Byte.byte) (bytes : list Byte.byte),
    isValidMasterSalt (generateMasterSalt entropy) = true /\
    isValidMasterSalt (bytesToHex bytes) = (length bytes =? 32)%nat.
Proof.
  intros entropy bytes. split; [|apply bytesToHex_valid_salt].
  unfold generateMasterSalt.
  rewrite bytesToHex_valid_salt, length_map, length_seq. reflexivity.
Qed.

(** X17. An address computed by [computeZkLoginAddress] passes
    [isValidSuiAddress] exactly when the hash has 32 bytes - for SHA-256,
    always - whatever the issuer, e-mail and salt; a master salt is valid
    exactly when it is a valid address without the [0x]. *)
Theorem computed_address_is_valid :
  forall (sha256 : string -> list Byte.byte)
         (jwtIssuer email masterSalt : string),
    isValidSuiAddress (computeZkLoginAddress sha256 jwtIssuer email masterSalt)
      = (length (sha256 (jwtIssuer ++ email ++ masterSalt)%string) =? 32)%nat
    /\
    isValidSuiAddress ("0x" ++ masterSalt)%string
      = isValidMasterSalt masterSalt.
Proof.
  intros sha256 jwtIssuer email masterSalt. split.
  - unfold computeZkLoginAddress. cbn [append isValidSuiAddress].
    apply bytesToHex_valid_salt.
  - reflexivity.
Qed.

End FormatProperties.

Section UploadAndPublish.
Import Walrus.
Local Open Scope string_scope.

Lemma get_Some_not_null (v : JsValue) (k : string) (x : JsValue) :
  get v k = Some x -> v <> JUndefined /\ v <> JNull.
Proof. destruct v; cbn; intros H; split; congruence. Qed.

Lemma get_not_null (v : JsValue) (k : string) :
  v <> JUndefined -> v <> JNull -> exists x, get v k = Some x.
Proof. destruct v; cbn; intros H1 H2; try congruence; eauto. Qed.

Lemma truthy_not_null (v : JsValue) :
  truthy v = true -> v <> JUndefined /\ v <> JNull.
Proof. destruct v; cbn; intros H; split; congruence. Qed.

(** X18. [uploadToWalrus] returns exactly when the store answered with a
    success status and a JSON body that is not [null], and either the
    [alreadyCertified] entry is truthy, carries an [event] that is neither
    missing nor [null], and its [blobId] is truthy, or the
    [alreadyCertified] entry is falsy, the [newlyCreated] entry is truthy,
    carries a [blobObject] that is neither missing nor [null], and the
    [blobId] of that is truthy.  What it returns is that [blobId]: never an
    empty string, and never the one under [newlyCreated] when
    [alreadyCertified] is there.  For answers of the declared shape it
    returns the blob id as a string, or throws when that is empty. *)
Theorem uploadToWalrus_returns :
  (forall (fetched : Fetched) (blobId : JsValue),
     uploadToWalrus fetched = Returned blobId <->
     exists response result alreadyCertified,
       fetched = Responded response /\ ok response = true /\
       json response = Some result /\
       get result "alreadyCertified" = Some alreadyCertified /\
       truthy blobId = true /\
       ((truthy alreadyCertified = true /\
         get alreadyCertified "blobId" = Some blobId /\
         exists event, get alreadyCertified "event" = Some event /\
                       event <> JUndefined /\ event <> JNull) \/
        (truthy alreadyCertified = false /\
         exists newlyCreated blobObject,
           get result "newlyCreated" = Some newlyCreated /\
           truthy newlyCreated = true /\
           get newlyCreated "blobObject" = Some blobObject /\
           get blobObject "blobId" = Some blobId))) /\
  (forall blobId txDigest eventSeq,
     uploadToWalrus (answered (already_certified blobId txDigest eventSeq))
     = if blobId =? "" then Threw UnexpectedFormat
       else Returned (JString blobId)) /\
  (forall blobId storageId cost,
     uploadToWalrus (answered (newly_created blobId storageId cost))
     = if blobId =? "" then Threw UnexpectedFormat
       else Returned (JString blobId)).
Proof.
  split; [|split].
  - intros fetched blobId. unfold uploadToWalrus. split.
    + destruct fetched as [|response]; [discriminate|].
      destruct (ok response) eqn:Hok; cbn [negb]; [|discriminate].
      destruct (json response) as [result|] eqn:Hjson; [|discriminate].
      destruct (pick_blobId result) as [b|] eqn:Hpick; [|discriminate].
      destruct (truthy b) eqn:Hb; cbn [negb]; [|discriminate].
      intros [= <-]. unfold pick_blobId in Hpick.
      destruct (get result "alreadyCertified") as [ac|] eqn:Hac;
        [|discriminate].
      exists response, result, ac.
      do 5 (split; [reflexivity || assumption|]).
      destruct (truthy ac) eqn:Htac.
      * left. split; [reflexivity|].
        destruct (get ac "blobId") as [b'|] eqn:Hid; [|discriminate].
        destruct (get ac "endEpoch") as [e|]; [|discriminate].
        destruct (get ac "event") as [event|] eqn:Hev; [|discriminate].
        destruct (get event "txDigest") as [d|] eqn:Hd; [|discriminate].
        injection Hpick as ->. split; [reflexivity|].
        exists event. split; [reflexivity|].
        exact (get_Some_not_null _ _ _ Hd).
      * right. split; [reflexivity|].
        destruct (get result "newlyCreated") as [nc|] eqn:Hnc;
          [|discriminate].
        destruct (truthy nc) eqn:Htnc.
        -- destruct (get nc "blobObject") as [bo|] eqn:Hbo; [|discriminate].
           destruct (get bo "blobId") as [b'|] eqn:Hid; [|discriminate].
           destruct (get bo "size") as [sz|]; [|discriminate].
           destruct (get nc "cost") as [c|]; [|discriminate].
           destruct (get bo "storage") as [st|]; [|discriminate].
           destruct (if truthy st then get st "endEpoch"
                     else Some JUndefined); [|discriminate].
           injection Hpick as ->. exists nc, bo. auto.
        -- injection Hpick as <-. discriminate.
    + intros (response & result & ac & -> & Hok & Hjson & Hac & Hb & Hcase).
      rewrite Hok, Hjson. cbn [negb]. unfold pick_blobId. rewrite Hac.
      destruct Hcase as [(Htac & Hid & event & Hev & Hu & Hn)
                        | (Htac & nc & bo & Hnc & Htnc & Hbo & Hid)].
      * rewrite Htac, Hid, Hev.
        destruct (truthy_not_null _ Htac) as [Hacu Hacn].
        destruct (get_not_null ac "endEpoch" Hacu Hacn) as [e ->].
        destruct (get_not_null event "txDigest" Hu Hn) as [d ->].
        rewrite Hb. reflexivity.
      * rewrite Htac, Hnc, Htnc, Hbo, Hid.
        destruct (truthy_not_null _ Htnc) as [Hncu Hncn].
        destruct (get_Some_not_null _ _ _ Hid) as [Hbou Hbon].
        destruct (get_not_null bo "size" Hbou Hbon) as [sz ->].
        destruct (get_not_null nc "cost" Hncu Hncn) as [c ->].
        destruct (get_not_null bo "storage" Hbou Hbon) as [st ->].
        destruct (truthy st) eqn:Hst.
        -- destruct (truthy_not_null _ Hst) as [Hstu Hstn].
           destruct (get_not_null st "endEpoch" Hstu Hstn) as [e ->].
           rewrite Hb. reflexivity.
        -- rewrite Hb. reflexivity.
  - intros blobId txDigest eventSeq. cbn.
    destruct (blobId =? ""); reflexivity.
  - intros blobId storageId cost. cbn.
    destruct (blobId =? ""); reflexivity.
Qed.

(** An [alreadyCertified] entry without [event] makes the upload throw a
    TypeError although the blob id is there. *)
Lemma uploadToWalrus_certified_without_event :
  uploadToWalrus
    (answered (JObject [("alreadyCertified",
                         JObject [("blobId", JString "b")])]))
  = Threw TypeError.
Proof. reflexivity. Qed.

End UploadAndPublish.

Section PublishProperties.
Import PublishPage.



(** The largest price the page can publish is the largest [u64]; one more
    and the builder refuses. *)
Lemma handleCreateListing_price_bound :
  handleCreateListing false 0 18446744073709551616 [98] [110] [100]
    = Refused /\
  handleCreateListing false 0 18446744073709551615 [98] [110] [100]
    = MoveCall (CreateListing 18446744073709551615 [98] [110] [100]).
Proof. split; reflexivity. Qed.

End PublishProperties.

Section UnlockDataProperties.
Import UnlockData.
Local Open Scope N_scope.

Lemma UnicodeEscape_latin1 c :
  forallb (fun u => u <? 256) (UnicodeEscape c) = true.
Proof.
  unfold UnicodeEscape. cbn [app map forallb].
  rewrite !(proj2 (N.ltb_lt _ 256) (N_ascii_bounded _)). reflexivity.
Qed.

Lemma quote_unit_latin1 c :
  c < 256 -> forallb (fun u => u <? 256) (quote_unit c) = true.
Proof.
  intros Hc. unfold quote_unit.
  repeat match goal with
         | |- context [if ?b then _ else _] => destruct b
         end; try reflexivity.
  - apply UnicodeEscape_latin1.
  - cbn. rewrite (proj2 (N.ltb_lt _ _) Hc). reflexivity.
Qed.

Lemma quote_units_latin1 s :
  forallb (fun u => u <? 256) s = true ->
  forallb (fun u => u <? 256) (quote_units s) = true.
Proof.
  induction s as [|c rest IH]; [reflexivity|].
  cbn [forallb]. intros H. apply andb_true_iff in H as [Hc Hrest].
  apply N.ltb_lt in Hc. cbn [quote_units].
  replace (is_leading_surrogate c) with false
    by (symmetry; unfold is_leading_surrogate; apply andb_false_iff; left;
        apply N.leb_gt; lia).
  replace (is_trailing_surrogate c) with false
    by (symmetry; unfold is_trailing_surrogate; apply andb_false_iff; left;
        apply N.leb_gt; lia).
  rewrite forallb_app, (quote_unit_latin1 c Hc), (IH Hrest). reflexivity.
Qed.

Lemma quote_units_keeps u :
  256 <= u -> is_leading_surrogate u = false ->
  is_trailing_surrogate u = false ->
  forall n s, (length s <= n)%nat -> In u s -> In u (quote_units s).
Proof.
  intros Hu Hlead Htrail. induction n as [|n IH]; intros s Hlen Hin.
  - destruct s; [contradiction | cbn in Hlen; lia].
  - destruct s as [|c rest]; [contradiction|]. cbn [quote_units].
    cbn [length] in Hlen.
    destruct (is_leading_surrogate c) eqn:Hc.
    + destruct Hin as [-> | Hin]; [congruence|].
      destruct rest as [|d rest']; [contradiction|].
      destruct (is_trailing_surrogate d) eqn:Hd.
      * destruct Hin as [-> | Hin]; [congruence|].
        right. right. apply IH; [cbn [length] in Hlen; lia | exact Hin].
      * apply in_or_app. right. apply IH; [lia | exact Hin].
    + destruct (is_trailing_surrogate c) eqn:Hc'.
      * destruct Hin as [-> | Hin]; [congruence|].
        apply in_or_app. right. apply IH; [lia | exact Hin].
      * apply in_or_app. destruct Hin as [-> | Hin].
        -- left. unfold quote_unit.
           repeat match goal with
                  | |- context [if ?b then _ else _] =>
                      destruct b eqn:?
                  end;
             try (left; reflexivity);
             repeat match goal with
                    | H : (_ =? _) = true |- _ => apply N.eqb_eq in H
                    | H : (_ <? _) = true |- _ => apply N.ltb_lt in H
                    end; lia.
        -- right. apply IH; [lia | exact Hin].
Qed.

Lemma forallb_witness_false {A} (f : A -> bool) l x :
  In x l -> f x = false -> forallb f l = false.
Proof.
  intros Hin Hx. destruct (forallb f l) eqn:Hall; [|reflexivity].
  rewrite forallb_forall in Hall. rewrite (Hall x Hin) in Hx. discriminate.
Qed.

(** X20. The link fragment can only carry Latin-1 file names.  For an
    exportable key, [encodeUnlockData] succeeds, with a base64 result,
    whenever every code unit of the file name and type is below 256; it
    fails - [btoa] throws - as soon as the name or the type holds a code
    unit above 255 that is not a surrogate (a Cyrillic, Greek or CJK
    letter, for instance), because [JSON.stringify] copies such characters
    unescaped. *)
Theorem encodeUnlockData_latin1_only :
  forall (key : CryptoKey) (fileName fileType : list N),
    extractable key = true ->
    (forallb (fun u => u <? 256) fileName = true ->
     forallb (fun u => u <? 256) fileType = true ->
     exists encoded,
       encodeUnlockData key fileName fileType = Some encoded /\
       forallb base64_char (list_ascii_of_string encoded) = true) /\
    (forall u,
       In u fileName \/ In u fileType ->
       256 <= u -> is_leading_surrogate u = false ->
       is_trailing_surrogate u = false ->
       encodeUnlockData key fileName fileType = None).
Proof.
  intros key fileName fileType Hext.
  unfold encodeUnlockData, exportKeyToBase64, subtle_exportKey.
  rewrite Hext. cbv zeta. unfold js_btoa.
  set (k := units_of_string _). split.
  - intros Hn Ht.
    assert (forallb (fun u => u <? 256) k = true) as Hk.
    { apply forallb_forall. intros x Hx.
      apply N.ltb_lt.
      pose proof (string_bytes_bounded
                    (Base64.btoa (string_of_list_byte (raw key)))) as Hb.
      rewrite List.Forall_forall in Hb. apply Hb, Hx. }
    replace (forallb (fun u => u <? 256) (JSON_stringify k fileName fileType))
      with true.
    + eexists. split; [reflexivity | apply btoa_base64_chars].
    + symmetry. unfold JSON_stringify, QuoteJSONString.
      rewrite !forallb_app, !quote_units_latin1 by assumption. reflexivity.
  - intros u Hin Hu Hlead Htrail.
    replace (forallb (fun u => u <? 256) (JSON_stringify k fileName fileType))
      with false; [reflexivity|].
    symmetry. apply (forallb_witness_false _ _ u);
      [|apply N.ltb_ge; exact Hu].
    unfold JSON_stringify, QuoteJSONString.
    destruct Hin as [Hin | Hin];
      apply (quote_units_keeps u Hu Hlead Htrail _ _ (Nat.le_refl _)) in Hin;
      rewrite !in_app_iff; tauto.
Qed.

End UnlockDataProperties.

(** The name [a] encodes; the Cyrillic letter [U+044F] does not. *)
Lemma encodeUnlockData_latin1_only_witness :
  (exists encoded,
     UnlockData.encodeUnlockData FileCrypto.sample_key [97%N] [] = Some encoded)
  /\ UnlockData.encodeUnlockData FileCrypto.sample_key [1103%N] [] = None.
Proof.
  destruct (encodeUnlockData_latin1_only FileCrypto.sample_key [97%N] []
              eq_refl) as [Hok _].
  destruct (encodeUnlockData_latin1_only FileCrypto.sample_key [1103%N] []
              eq_refl) as [_ Hfail].
  split.
  - destruct (Hok eq_refl eq_refl) as (encoded & H & _).
    exists encoded. exact H.
  - apply (Hfail 1103%N); [left; left; reflexivity | | reflexivity
                           | reflexivity].
    apply N.leb_le. reflexivity.
Defined.

Section DisplayProperties.
Import Formats.

Lemma string_append_length (s1 s2 : string) :
  String.length (s1 ++ s2)%string
  = (String.length s1 + String.length s2)%nat.
Proof.
  induction s1 as [|c s1 IH]; simpl; [reflexivity | now rewrite IH].
Qed.

Lemma substring_length (s : string) :
  forall n m, (n + m <= String.length s)%nat ->
              String.length (substring n m s) = m.
Proof.
  induction s as [|c s IH]; intros n m H; cbn [String.length] in H.
  - destruct n, m; cbn in *; try reflexivity; lia.
  - destruct n as [|n]; cbn [substring].
    + destruct m as [|m]; [reflexivity|].
      cbn [String.length]. rewrite (IH 0%nat m) by lia. reflexivity.
    + apply IH. lia.
Qed.

Lemma substring_prefix_append (s t : string) :
  forall m, (m <= String.length s)%nat ->
            substring 0 m (s ++ t) = substring 0 m s.
Proof.
  induction s as [|c s IH]; intros m H; cbn [String.length] in H.
  - destruct m; [|lia]. destruct t; reflexivity.
  - destruct m as [|m]; [reflexivity|].
    simpl. f_equal. apply IH. lia.
Qed.

(** X21. [formatAddress] returns strings of up to ten characters as they
    are; anything longer comes out exactly thirteen characters long - six
    leading characters of the input, three dots, four trailing ones - so the
    display never exceeds thirteen characters, and an input of eleven or
    twelve characters comes out longer than it went in. *)
Theorem formatAddress_length :
  forall address : string,
    ((String.length address <= 10)%nat -> formatAddress address = address) /\
    ((10 < String.length address)%nat ->
     String.length (formatAddress address) = 13%nat /\
     substring 0 6 (formatAddress address) = substring 0 6 address) /\
    (String.length (formatAddress address) <= 13)%nat.
Proof.
  intros address. unfold formatAddress.
  destruct (Nat.leb_spec (String.length address) 10) as [Hle | Hgt].
  - split; [reflexivity|]. split; [lia | lia].
  - assert (String.length
              (substring 0 6 address ++ "..."
                 ++ substring (String.length address - 4) 4 address)%string
            = 13%nat) as Hlen.
    { rewrite !string_append_length, !substring_length by lia.
      reflexivity. }
    split; [lia|]. split; [|lia].
    intros _. split; [exact Hlen|].
    rewrite substring_prefix_append
      by (rewrite substring_length; lia).
    assert (forall s : string, (6 <= String.length s)%nat ->
              substring 0 6 (substring 0 6 s) = substring 0 6 s) as Hidem.
    { intros s Hs.
      do 6 (destruct s as [|? s]; [cbn in Hs; lia|]).
      destruct s; reflexivity. }
    apply Hidem. lia.
Qed.

Lemma formatAddress_length_witness :
  String.length (formatAddress "0x12345678a") = 13%nat /\
  formatAddress "0x1234" = "0x1234"%string.
Proof.
  split.
  - apply (proj1 (proj2 (formatAddress_length "0x12345678a"))).
    vm_compute. lia.
  - apply (proj1 (formatAddress_length "0x1234")). vm_compute. lia.
Defined.

End DisplayProperties.
